(** * mesh/router.go: channel registry, gossip dispatch and topology gossip

    A shallow embedding of [router.go] of the mesh library.  The Router is a
    record threaded through a state monad; the collaborators that live in
    other files of the package (Peers, the gob decoder, channel delivery)
    are the methods of a type class, so every statement about the router is
    proved for all of their implementations. *)

From Stdlib Require Import ZArith.
From Stdlib Require Import Init.Byte.
From stdpp Require Import gmap strings list fin_maps relations.

(** ** Data model *)

(** Modelled from the spec: [PeerName] is declared outside router.go; the
    spec describes it as an opaque fixed-width integer-like identifier. *)
Definition PeerName := N.

(** [type peerNameSet map[PeerName]struct{}]; a nil map and an empty map
    are both the empty set, and [len] is [size]. *)
Abbreviation peerNameSet := (gset N).

(** Pointers.  A [*gossipChannel] is the index of the channel object in the
    list of allocated channels; a [*Peers] is an opaque address. *)
Definition chanptr := nat.
Definition peersptr := nat.

Inductive error :=
  | errDuplicateChannel (channelName : string)
      (* fmt.Errorf("[gossip] duplicate channel %s", channelName) *)
  | errUnexpectedUnicast (msg : list byte)
      (* fmt.Errorf("unexpected topology gossip unicast: %v", msg) *)
  | errForeign (what : string).
      (* an error value produced by a collaborator (gob, Peers, a channel) *)

(** The implementations of the [Gossiper] interface a channel can be bound
    to. *)
Inductive Gossiper :=
  | routerGossiper                 (* the Router itself, on "topology" *)
  | surrogateGossiper              (* &surrogateGossiper{router: router} *)
  | madeGossiper (id : nat).       (* any application-supplied Gossiper *)

(** Modelled from the spec: the struct [gossipChannel] and its constructor
    [newGossipChannel] are declared in another file; a channel has a name and
    the Gossiper it is bound to (the references to the local peer, the routes
    and the logger are the router's own and the same for every channel). *)
Record gossipChannelObj := mkChannel {
  name : string;
  gossiper : Gossiper
}.

(** Modelled from the spec: [protocolTag] is declared outside router.go; the
    spec gives the tags that select a gossip delivery as the enumeration
    {Gossip, GossipUnicast, GossipBroadcast}. *)
Inductive protocolTag :=
  | ProtocolGossip
  | ProtocolGossipUnicast
  | ProtocolGossipBroadcast.

(** [topologyGossipData]: a reference to Peers and the set of names. *)
Record topologyGossipData := mkTopology {
  peers : peersptr;
  update : peerNameSet
}.

(** The [GossipData] interface: the topology data of this file, or the data
    of some other gossiper. *)
Inductive GossipData :=
  | topologyData (d : topologyGossipData)
  | foreignData (id : nat).

(** Calls the router makes on its collaborators, in the order made. *)
Inductive call :=
  | callRefresh                                  (* ConnectionMaker.refresh() *)
  | callRecalculate                              (* Routes.recalculate() *)
  | callLogf (channel : chanptr) (msg : string)  (* channel.logf(msg) *)
  | callDeliverUnicast (channel : chanptr) (srcName : PeerName) (payload : list byte)
  | callDeliverBroadcast (channel : chanptr) (srcName : PeerName) (payload : list byte)
  | callDeliver (channel : chanptr) (srcName : PeerName) (payload : list byte).

Definition isDelivery (c : call) : bool :=
  match c with
  | callDeliverUnicast _ _ _ | callDeliverBroadcast _ _ _ | callDeliver _ _ _ => true
  | _ => false
  end.

Definition isRefresh (c : call) : bool :=
  match c with callRefresh => true | _ => false end.

Definition isRecalculate (c : call) : bool :=
  match c with callRecalculate => true | _ => false end.

Definition countCalls (p : call -> bool) (cs : list call) : nat :=
  length (filter (fun c => p c = true) cs).

(** ** Constants of router.go *)

Definition Millisecond : Z := 1000000.        (* time.Duration counts nanoseconds *)
Definition acceptMaxTokens : Z := 20.
Definition acceptTokenDelay : Z := 50 * Millisecond.

(** ** The rate limiter *)

Module TokenBucket.

(** Modelled from the spec: the [tokenBucket] type, [newTokenBucket] and
    [wait] are in another file of the package.  Spec section 4.3: a
    fixed-capacity counting resource with capacity C and refill delay D;
    [Wait()] blocks the caller until at least one token is available, then
    consumes it; tokens regenerate one at a time after D has elapsed since
    the last consumption.  Time is an integer count of nanoseconds. *)
Record tokenBucket := mkBucket {
  capacity : Z;        (* C, the maximum number of tokens *)
  tokenDelay : Z;      (* D, the refill delay *)
  tokens : Z;          (* tokens left at the last consumption *)
  lastTake : Z         (* the time of the last consumption *)
}.

(** Modelled from the spec: a new bucket is full. *)
Definition newTokenBucket (C D now : Z) : tokenBucket :=
  {| capacity := C; tokenDelay := D; tokens := C; lastTake := now |}.

(** Modelled from the spec: the tokens in the bucket at time [now], one
    regenerated for every D elapsed since the last consumption, never more
    than the capacity. *)
Definition available (tb : tokenBucket) (now : Z) : Z :=
  Z.min (capacity tb) (tokens tb + (now - lastTake tb) / tokenDelay tb).

(** Modelled from the spec: [wait] called at time [now] returns the time at
    which the caller resumes and the bucket it leaves behind. *)
Definition wait (tb : tokenBucket) (now : Z) : Z * tokenBucket :=
  if decide (1 <= available tb now)%Z then
    (now, {| capacity := capacity tb; tokenDelay := tokenDelay tb;
             tokens := available tb now - 1; lastTake := now |})
  else
    let wake := (lastTake tb + tokenDelay tb)%Z in
    (wake, {| capacity := capacity tb; tokenDelay := tokenDelay tb;
              tokens := 0; lastTake := wake |}).

(** [n] calls of [wait], each issued as soon as the one before returns;
    the result lists the return times. *)
Fixpoint waits (n : nat) (tb : tokenBucket) (now : Z) : list Z * tokenBucket :=
  match n with
  | O => ([], tb)
  | S n' =>
      let '(wake, tb') := wait tb now in
      let '(rest, tb'') := waits n' tb' wake in
      (wake :: rest, tb'')
  end.

End TokenBucket.

(** ** Collaborators *)

(** The operations router.go uses from the rest of the package and from
    encoding/gob.  [applyUpdate] is [Peers.applyUpdate]: it acts on the Peers
    object and returns (origUpdate, newUpdate, err).  A [Decoder] is a
    [*gob.Decoder]: each [Decode] returns the value or an error, and the
    decoder advanced past what it read.  [deliveryResult] is the error, if
    any, that the delivery method of the channel returns. *)
Class Collaborators := {
  PeersObj : Type;
  applyUpdate : PeersObj -> list byte -> (peerNameSet * peerNameSet * option error) * PeersObj;
  names : PeersObj -> peerNameSet;
  Decoder : Type;
  NewDecoder : list byte -> Decoder;
  DecodeString : Decoder -> (string + error) * Decoder;
  DecodePeerName : Decoder -> (PeerName + error) * Decoder;
  deliveryResult : protocolTag -> chanptr -> PeerName -> list byte -> Decoder -> option error
}.

Section router.
Context `{Collaborators}.

(** ** The Router *)

(** The fields of [Router] this file's operations read or write, the Peers
    object [Peers] points to, the channel objects allocated so far and the
    calls made so far. *)
Record Router := mkRouter {
  Peers : peersptr;
  GossiperMaker : option (string -> Gossiper);
  gossipChannels : gmap string chanptr;
  topologyGossip : option chanptr;
  acceptLimiter : option TokenBucket.tokenBucket;
  peersObj : PeersObj;
  channelObjs : list gossipChannelObj;
  calls : list call
}.

Definition setChannels (f : gmap string chanptr -> gmap string chanptr) (r : Router) : Router :=
  mkRouter (Peers r) (GossiperMaker r) (f (gossipChannels r)) (topologyGossip r)
           (acceptLimiter r) (peersObj r) (channelObjs r) (calls r).

Definition setPeersObj (p : PeersObj) (r : Router) : Router :=
  mkRouter (Peers r) (GossiperMaker r) (gossipChannels r) (topologyGossip r)
           (acceptLimiter r) p (channelObjs r) (calls r).

Definition setChannelObjs (l : list gossipChannelObj) (r : Router) : Router :=
  mkRouter (Peers r) (GossiperMaker r) (gossipChannels r) (topologyGossip r)
           (acceptLimiter r) (peersObj r) l (calls r).

Definition setCalls (l : list call) (r : Router) : Router :=
  mkRouter (Peers r) (GossiperMaker r) (gossipChannels r) (topologyGossip r)
           (acceptLimiter r) (peersObj r) (channelObjs r) l.

Definition setTopologyGossip (g : option chanptr) (r : Router) : Router :=
  mkRouter (Peers r) (GossiperMaker r) (gossipChannels r) g
           (acceptLimiter r) (peersObj r) (channelObjs r) (calls r).

Definition setAcceptLimiter (tb : option TokenBucket.tokenBucket) (r : Router) : Router :=
  mkRouter (Peers r) (GossiperMaker r) (gossipChannels r) (topologyGossip r)
           tb (peersObj r) (channelObjs r) (calls r).

(** ** The state monad of router methods *)

Definition M (A : Type) : Type := Router -> A * Router.

Definition ret {A} (a : A) : M A := fun r => (a, r).

Definition bind {A B} (m : M A) (k : A -> M B) : M B :=
  fun r => let '(a, r') := m r in k a r'.

Definition gets {A} (f : Router -> A) : M A := fun r => (f r, r).

Definition modify (f : Router -> Router) : M unit := fun r => (tt, f r).

Notation "'let*' x ':=' m 'in' k" := (bind m (fun x => k))
  (at level 10, x pattern, m at level 100, k at level 200, only parsing).
Notation "m ';;' k" := (bind m (fun _ => k))
  (at level 100, k at level 200, right associativity, only parsing).

(** A call on a collaborator is appended to the record of calls. *)
Definition perform (c : call) : M unit :=
  modify (fun r => setCalls (calls r ++ [c]) r).

(** [newGossipChannel]: allocate a channel object and return its pointer. *)
Definition newGossipChannel (channelName : string) (g : Gossiper) : M chanptr :=
  fun r => (length (channelObjs r),
            setChannelObjs (channelObjs r ++ [mkChannel channelName g]) r).

(** ** The channel registry *)

(** [Router.NewGossip]. *)
Definition NewGossip (channelName : string) (g : Gossiper) : M (option chanptr * option error) :=
  let* channel := newGossipChannel channelName g in
  let* chans := gets gossipChannels in
  match chans !! channelName with
  | Some _ => ret (None, Some (errDuplicateChannel channelName))
  | None =>
      modify (setChannels <[channelName := channel]>) ;;
      ret (Some channel, None)
  end.

(** [Router.GetGossip]: a nil result is [None]. *)
Definition GetGossip (channelName : string) : M (option chanptr) :=
  gets (fun r => gossipChannels r !! channelName).

(** [Router.gossipChannel], first critical section: the lookup under the
    read lock. *)
Definition gossipChannelRLocked (channelName : string) : M (option chanptr) :=
  gets (fun r => gossipChannels r !! channelName).

(** [Router.gossipChannel], second critical section: under the write lock,
    look again and create the surrogate channel when the name is still
    absent. *)
Definition gossipChannelLocked (channelName : string) : M chanptr :=
  let* chans := gets gossipChannels in
  match chans !! channelName with
  | Some channel => ret channel
  | None =>
      let* maker := gets GossiperMaker in
      let g := match maker with
               | Some MakeGossiper => MakeGossiper channelName
               | None => surrogateGossiper
               end in
      let* channel := newGossipChannel channelName g in
      perform (callLogf channel "created surrogate channel") ;;
      modify (setChannels <[channelName := channel]>) ;;
      ret channel
  end.

(** [Router.gossipChannel]. *)
Definition gossipChannel (channelName : string) : M chanptr :=
  let* found := gossipChannelRLocked channelName in
  match found with
  | Some channel => ret channel
  | None => gossipChannelLocked channelName
  end.

(** ** Dispatch of inbound gossip *)

(** Modelled from the spec: [deliverUnicast], [deliverBroadcast] and
    [deliver] are methods of the channel, declared in another file; spec
    section 4.1 has a delivery pass the payload to the Gossiper of the
    channel ([OnGossipUnicast], [OnGossipBroadcast] or [OnGossip]) and relay.
    Of a delivery these definitions keep what [handleGossip] does with it:
    the call, recorded with its arguments, and the error returned, the
    collaborator's [deliveryResult].  What the delivery does inside the
    channel is not run by them: the callback of the Gossiper and what it
    does to the router are no part of the router they return.  The
    callbacks of the topology Gossiper are [OnGossipUnicast],
    [OnGossipBroadcast] and [OnGossip] below, operations of their own. *)
Definition deliverUnicast (channel : chanptr) (srcName : PeerName)
    (payload : list byte) (decoder : Decoder) : M (option error) :=
  perform (callDeliverUnicast channel srcName payload) ;;
  ret (deliveryResult ProtocolGossipUnicast channel srcName payload decoder).

(** Modelled from the spec: the broadcast delivery of the channel, kept as
    the call and its error; the [OnGossipBroadcast] callback it makes is
    not run (see [deliverUnicast]). *)
Definition deliverBroadcast (channel : chanptr) (srcName : PeerName)
    (payload : list byte) (decoder : Decoder) : M (option error) :=
  perform (callDeliverBroadcast channel srcName payload) ;;
  ret (deliveryResult ProtocolGossipBroadcast channel srcName payload decoder).

(** Modelled from the spec: the merge delivery of the channel, kept as the
    call and its error; the [OnGossip] callback it makes is not run (see
    [deliverUnicast]). *)
Definition deliver (channel : chanptr) (srcName : PeerName)
    (payload : list byte) (decoder : Decoder) : M (option error) :=
  perform (callDeliver channel srcName payload) ;;
  ret (deliveryResult ProtocolGossip channel srcName payload decoder).

(** [Router.handleGossip].  The switch covers the three tags, so the
    [return nil] after it is not reached. *)
Definition handleGossip (tag : protocolTag) (payload : list byte) : M (option error) :=
  let decoder := NewDecoder payload in
  match DecodeString decoder with
  | (inr err, _) => ret (Some err)
  | (inl channelName, decoder) =>
      let* channel := gossipChannel channelName in
      match DecodePeerName decoder with
      | (inr err, _) => ret (Some err)
      | (inl srcName, decoder) =>
          match tag with
          | ProtocolGossipUnicast => deliverUnicast channel srcName payload decoder
          | ProtocolGossipBroadcast => deliverBroadcast channel srcName payload decoder
          | ProtocolGossip => deliver channel srcName payload decoder
          end
      end
  end.

(** ** The router as the gossiper of the topology channel *)

(** [router.Peers.applyUpdate(update)], acting on the Peers object. *)
Definition Peers_applyUpdate (upd : list byte) : M (peerNameSet * peerNameSet * option error) :=
  fun r => let '(res, p) := applyUpdate (peersObj r) upd in (res, setPeersObj p r).

(** [Router.applyTopologyUpdate]. *)
Definition applyTopologyUpdate (upd : list byte) : M (peerNameSet * peerNameSet * option error) :=
  let* (origUpdate, newUpdate, err) := Peers_applyUpdate upd in
  match err with
  | Some e => ret (∅, ∅, Some e)
  | None =>
      (if decide (0 < size newUpdate)
       then perform callRefresh ;; perform callRecalculate
       else ret tt) ;;
      ret (origUpdate, newUpdate, None)
  end.

(** [Router.OnGossipUnicast]. *)
Definition OnGossipUnicast (sender : PeerName) (msg : list byte) : M (option error) :=
  ret (Some (errUnexpectedUnicast msg)).

(** [Router.OnGossipBroadcast]. *)
Definition OnGossipBroadcast (sender : PeerName) (upd : list byte) : M (option GossipData * option error) :=
  let* (origUpdate, _, err) := applyTopologyUpdate upd in
  if decide (is_Some err \/ size origUpdate = 0) then ret (None, err)
  else
    let* p := gets Peers in
    ret (Some (topologyData (mkTopology p origUpdate)), None).

(** [Router.Gossip]. *)
Definition Gossip : M (option GossipData) :=
  let* p := gets Peers in
  let* po := gets peersObj in
  ret (Some (topologyData (mkTopology p (names po)))).

(** [Router.OnGossip]. *)
Definition OnGossip (upd : list byte) : M (option GossipData * option error) :=
  let* (_, newUpdate, err) := applyTopologyUpdate upd in
  if decide (is_Some err \/ size newUpdate = 0) then ret (None, err)
  else
    let* p := gets Peers in
    ret (Some (topologyData (mkTopology p newUpdate)), None).

(** ** Construction *)

(** [NewRouter]: the registry starts empty, the Gossiper maker is left nil,
    the router registers itself under "topology" and the accept limiter is
    made from the two constants.  [peersAddr] and [po] are the Peers object
    made by [newPeers], [now] the time of the call. *)
Definition NewRouter (peersAddr : peersptr) (po : PeersObj) (now : Z) : option Router * option error :=
  let router := mkRouter peersAddr None ∅ None None po [] [] in
  let '((gossip, err), router) := NewGossip "topology" routerGossiper router in
  match err with
  | Some e => (None, Some e)
  | None =>
      let router := setTopologyGossip gossip router in
      let router := setAcceptLimiter
        (Some (TokenBucket.newTokenBucket acceptMaxTokens acceptTokenDelay now)) router in
      (Some router, None)
  end.

(** [listenTCP], one turn of the accept loop after a connection has been
    handed over: [router.acceptLimiter.wait()] at time [now]; the result is
    the time at which the loop goes on ([None]: the limiter is nil and
    the call panics). *)
Definition acceptLimiterWait (now : Z) : M (option Z) :=
  fun r =>
    match acceptLimiter r with
    | Some tb => let '(wake, tb') := TokenBucket.wait tb now in
                 (Some wake, setAcceptLimiter (Some tb') r)
    | None => (None, r)
    end.

(** ** Interleavings of registry operations *)

(** The registry is guarded by [gossipLock]: what a goroutine does while it
    holds the lock is one atomic step, and goroutines interleave between
    their critical sections.  A goroutine in [gossipChannel] has two of
    them (the lookup under the read lock, then the re-check and creation
    under the write lock); a goroutine in [NewGossip] has one, and the
    channel object it builds before taking the lock is its own until it
    is stored. *)
Inductive thread :=
  | resolveStart (channelName : string)
  | resolveMissed (channelName : string)
  | resolveDone (channelName : string) (channel : chanptr)
  | registerStart (channelName : string) (g : Gossiper)
  | registerDone (channelName : string) (res : option chanptr * option error).

Definition threadStep (t : thread) : option (M thread) :=
  match t with
  | resolveStart n =>
      Some (let* found := gossipChannelRLocked n in
            ret (match found with
                 | Some channel => resolveDone n channel
                 | None => resolveMissed n
                 end))
  | resolveMissed n =>
      Some (let* channel := gossipChannelLocked n in ret (resolveDone n channel))
  | registerStart n g =>
      Some (let* res := NewGossip n g in ret (registerDone n res))
  | resolveDone _ _ | registerDone _ _ => None
  end.

Inductive step : list thread * Router -> list thread * Router -> Prop :=
  | step_thread (i : nat) (t t' : thread) (m : M thread) (ts : list thread) (r r' : Router) :
      ts !! i = Some t ->
      threadStep t = Some m ->
      m r = (t', r') ->
      step (ts, r) (<[i := t']> ts, r').

(** Run the threads in the order given by a schedule of thread indices;
    an index that names no thread, or a finished one, is skipped. *)
Fixpoint runSchedule (sched : list nat) (ts : list thread) (r : Router) : list thread * Router :=
  match sched with
  | [] => (ts, r)
  | i :: sched' =>
      match ts !! i with
      | Some t =>
          match threadStep t with
          | Some m => let '(t', r') := m r in runSchedule sched' (<[i := t']> ts) r'
          | None => runSchedule sched' ts r
          end
      | None => runSchedule sched' ts r
      end
  end.

(** The threads that have not started yet hold no channel. *)
Definition notStarted (t : thread) : Prop :=
  match t with
  | resolveStart _ | registerStart _ _ => True
  | _ => False
  end.

(** The surrogate channels created so far, read off the log calls. *)
Definition surrogatesCreated (cs : list call) : list chanptr :=
  omap (fun c => match c with
                 | callLogf channel msg =>
                     if decide (msg = "created surrogate channel") then Some channel else None
                 | _ => None
                 end) cs.

Definition channelName (r : Router) (channel : chanptr) : option string :=
  name <$> channelObjs r !! channel.

Definition surrogatesFor (n : string) (r : Router) : list chanptr :=
  filter (fun c => channelName r c = Some n) (surrogatesCreated (calls r)).

(** Every surrogate named in the log is an allocated channel object. *)
Definition allocated (r : Router) : Prop :=
  Forall (fun c => c < length (channelObjs r)) (surrogatesCreated (calls r)).

End router.

(** ** Topology gossip data *)

(** [topologyGossipData.Merge]: both loops insert name by name into a fresh
    set; the type assertion on [other] panics ([None]) when [other] is not
    topology data. *)
Definition Merge (d : topologyGossipData) (other : GossipData) : option GossipData :=
  let names : peerNameSet := ∅ in
  let names := foldl (fun acc name => {[name]} ∪ acc) names (elements (update d)) in
  match other with
  | topologyData o =>
      let names := foldl (fun acc name => {[name]} ∪ acc) names (elements (update o)) in
      Some (topologyData (mkTopology (peers d) names))
  | foreignData _ => None
  end.

(** ** A small implementation of the collaborators

    Used to run the definitions on sample inputs.  Peers is the set of known
    names; an update is one byte per name, and the byte [xff] is malformed;
    [applyUpdate] reports the names sent and those that were new, as spec
    section 6 describes it.
    A gob stream is read as a length byte followed by the characters of the
    channel name, then one byte for the sender. *)
Module Sample.

Definition decodeNames (upd : list byte) : option (list N) :=
  if existsb (Byte.eqb xff) upd then None else Some (Byte.to_N <$> upd).

Definition applyUpdate (known : gset N) (upd : list byte)
    : (gset N * gset N * option error) * gset N :=
  match decodeNames upd with
  | None => ((∅, ∅, Some (errForeign "malformed update")), known)
  | Some ns =>
      let orig : gset N := list_to_set ns in
      ((orig, orig ∖ known, None), known ∪ orig)
  end.

Definition DecodeString (d : list byte) : (string + error) * list byte :=
  match d with
  | [] => (inr (errForeign "EOF"), [])
  | len :: rest =>
      let n := N.to_nat (Byte.to_N len) in
      if decide (n <= length rest)
      then (inl (String.string_of_list_byte (take n rest)), drop n rest)
      else (inr (errForeign "unexpected EOF"), rest)
  end.

Definition DecodePeerName (d : list byte) : (PeerName + error) * list byte :=
  match d with
  | [] => (inr (errForeign "EOF"), [])
  | b :: rest => (inl (Byte.to_N b), rest)
  end.

#[export] Instance collaborators : Collaborators :=
  Build_Collaborators
    (gset N) applyUpdate (fun known => known)
    (list byte) (fun payload => payload) DecodeString DecodePeerName
    (fun _ _ _ _ _ => None).

(** A router as [NewRouter] makes it, knowing the peers 1 and 2. *)
Definition router0 : Router :=
  match NewRouter 0 ({[1%N; 2%N]} : gset N) 0 with
  | (Some r, _) => r
  | (None, _) => mkRouter 0 None ∅ None None ∅ [] []
  end.

End Sample.

(** * Properties *)

(** ** The topology gossiper *)

Section topology_facts.
Context `{Collaborators}.

Lemma setCalls_nil_r (r : Router) : setCalls (calls r ++ []) r = r.
Proof. destruct r. unfold setCalls. simpl. by rewrite app_nil_r. Qed.

Lemma size_zero_empty (X : peerNameSet) : size X = 0 <-> X = ∅.
Proof. rewrite size_empty_iff. apply leibniz_equiv_iff. Qed.

(** The guard of both callbacks after a successful application: there is
    no error, so nothing is relayed exactly when the set is empty. *)
Lemma relay_guard (X : peerNameSet) :
  is_Some (@None error) \/ size X = 0 <-> X = ∅.
Proof.
  rewrite <- size_zero_empty. split; [|by right].
  intros [[e He]|Hz]; [discriminate|done].
Qed.

(** The calls [applyTopologyUpdate] makes for a newly-learned set. *)
Definition triggered (newUpdate : peerNameSet) : list call :=
  if decide (newUpdate = ∅) then [] else [callRefresh; callRecalculate].

(** What a successful [applyTopologyUpdate] returns and leaves behind. *)
Lemma applyTopologyUpdate_ok (r : Router) upd origUpdate newUpdate p :
  applyUpdate (peersObj r) upd = ((origUpdate, newUpdate, None), p) ->
  applyTopologyUpdate upd r =
    ((origUpdate, newUpdate, None),
     setCalls (calls r ++ triggered newUpdate) (setPeersObj p r)).
Proof.
  intros Happ. unfold applyTopologyUpdate, Peers_applyUpdate, bind, triggered.
  rewrite Happ. simpl.
  destruct (decide (0 < size newUpdate)) as [Hpos|Hzero];
    destruct (decide (newUpdate = ∅)) as [Hempty|Hne]; simpl.
  - subst newUpdate. rewrite size_empty in Hpos. lia.
  - unfold perform, modify, ret, setCalls, setPeersObj. simpl.
    by rewrite <- app_assoc.
  - unfold ret. by rewrite <- (setCalls_nil_r (setPeersObj p r)) at 1.
  - exfalso. apply Hne, size_zero_empty. lia.
Qed.

(** A failed application is passed on and triggers nothing. *)
Lemma applyTopologyUpdate_err (r : Router) upd origUpdate newUpdate e p :
  applyUpdate (peersObj r) upd = ((origUpdate, newUpdate, Some e), p) ->
  applyTopologyUpdate upd r = ((∅, ∅, Some e), setPeersObj p r).
Proof.
  intros Happ. unfold applyTopologyUpdate, Peers_applyUpdate, bind.
  by rewrite Happ.
Qed.


Lemma countCalls_triggered_refresh newUpdate :
  countCalls isRefresh (triggered newUpdate) = if decide (newUpdate = ∅) then 0 else 1.
Proof. unfold triggered. by destruct (decide _). Qed.

Lemma countCalls_triggered_recalculate newUpdate :
  countCalls isRecalculate (triggered newUpdate) = if decide (newUpdate = ∅) then 0 else 1.
Proof. unfold triggered. by destruct (decide _). Qed.

(** The state both topology callbacks leave behind after a successful
    application. *)
Lemma OnGossipBroadcast_state (r : Router) sender upd origUpdate newUpdate p :
  applyUpdate (peersObj r) upd = ((origUpdate, newUpdate, None), p) ->
  snd (OnGossipBroadcast sender upd r) =
    setCalls (calls r ++ triggered newUpdate) (setPeersObj p r).
Proof.
  intros Happ. unfold OnGossipBroadcast, bind.
  rewrite (applyTopologyUpdate_ok _ _ _ _ _ Happ).
  by destruct (decide _).
Qed.

Lemma OnGossip_state (r : Router) upd origUpdate newUpdate p :
  applyUpdate (peersObj r) upd = ((origUpdate, newUpdate, None), p) ->
  snd (OnGossip upd r) =
    setCalls (calls r ++ triggered newUpdate) (setPeersObj p r).
Proof.
  intros Happ. unfold OnGossip, bind.
  rewrite (applyTopologyUpdate_ok _ _ _ _ _ Happ).
  by destruct (decide _).
Qed.

(** C1 (as amended): [OnGossipBroadcast] applies the payload to Peers, and
    when the application succeeds the Peers object of the router is the one
    [Peers.applyUpdate] left, the calls made are those of the update, and
    nothing else of the router changes; it returns nothing to relay exactly
    when the received delta itself names no peer, and otherwise returns the
    received delta [origUpdate] unchanged, whether or not any of it was new
    to the receiver. *)
Theorem OnGossipBroadcast_relays_received (r : Router) sender upd origUpdate newUpdate p :
  applyUpdate (peersObj r) upd = ((origUpdate, newUpdate, None), p) ->
  OnGossipBroadcast sender upd r =
    ((if decide (origUpdate = ∅) then None
      else Some (topologyData (mkTopology (Peers r) origUpdate)), None),
     setCalls (calls r ++ (if decide (newUpdate = ∅) then []
                           else [callRefresh; callRecalculate]))
              (setPeersObj p r)) /\
  peersObj (snd (OnGossipBroadcast sender upd r)) = p.
Proof.
  intros Happ.
  assert (OnGossipBroadcast sender upd r =
            ((if decide (origUpdate = ∅) then None
              else Some (topologyData (mkTopology (Peers r) origUpdate)), None),
             setCalls (calls r ++ triggered newUpdate) (setPeersObj p r))) as Heq.
  { unfold OnGossipBroadcast, bind.
    rewrite (applyTopologyUpdate_ok _ _ _ _ _ Happ).
    destruct (decide (is_Some None \/ size origUpdate = 0)) as [Hg|Hg];
      destruct (decide (origUpdate = ∅)) as [He|Hne]; simpl; try done;
      rewrite relay_guard in Hg; done. }
  rewrite Heq. by split.
Qed.

(** C2: for a topology update applied through [OnGossipBroadcast] or
    [OnGossip], the calls made are exactly one [ConnectionMaker.refresh()]
    and one [Routes.recalculate()] when the update taught the receiver at
    least one name, and none at all when it taught it nothing. *)
Theorem topology_update_triggers_once (r : Router) sender upd origUpdate newUpdate p :
  applyUpdate (peersObj r) upd = ((origUpdate, newUpdate, None), p) ->
  forall r' : Router,
    r' = snd (OnGossipBroadcast sender upd r) \/ r' = snd (OnGossip upd r) ->
    exists made : list call,
      calls r' = calls r ++ made /\
      made = (if decide (newUpdate = ∅) then [] else [callRefresh; callRecalculate]) /\
      countCalls isRefresh made = (if decide (newUpdate = ∅) then 0 else 1) /\
      countCalls isRecalculate made = (if decide (newUpdate = ∅) then 0 else 1).
Proof.
  intros Happ r' Hr'. exists (triggered newUpdate).
  assert (r' = setCalls (calls r ++ triggered newUpdate) (setPeersObj p r)) as ->.
  { destruct Hr' as [-> | ->];
      [by eapply OnGossipBroadcast_state | by eapply OnGossip_state]. }
  split; [done|]. split; [done|].
  split; [apply countCalls_triggered_refresh | apply countCalls_triggered_recalculate].
Qed.

(** C3: [OnGossip] applies the payload to Peers, and when the application
    succeeds the Peers object of the router is the one [Peers.applyUpdate]
    left, the calls made are those of the update, and nothing else of the
    router changes; it returns the improvement [newUpdate] that
    [Peers.applyUpdate] reported, and nothing to relay when that improvement
    is empty. *)
Theorem OnGossip_returns_improvement (r : Router) upd origUpdate newUpdate p :
  applyUpdate (peersObj r) upd = ((origUpdate, newUpdate, None), p) ->
  OnGossip upd r =
    ((if decide (newUpdate = ∅) then None
      else Some (topologyData (mkTopology (Peers r) newUpdate)), None),
     setCalls (calls r ++ (if decide (newUpdate = ∅) then []
                           else [callRefresh; callRecalculate]))
              (setPeersObj p r)) /\
  peersObj (snd (OnGossip upd r)) = p.
Proof.
  intros Happ.
  assert (OnGossip upd r =
            ((if decide (newUpdate = ∅) then None
              else Some (topologyData (mkTopology (Peers r) newUpdate)), None),
             setCalls (calls r ++ triggered newUpdate) (setPeersObj p r))) as Heq.
  { unfold OnGossip, bind.
    rewrite (applyTopologyUpdate_ok _ _ _ _ _ Happ).
    destruct (decide (is_Some None \/ size newUpdate = 0)) as [Hg|Hg];
      destruct (decide (newUpdate = ∅)) as [He|Hne]; simpl; try done;
      rewrite relay_guard in Hg; done. }
  rewrite Heq. by split.
Qed.

(** C7: [OnGossipUnicast] on the topology channel returns an error for
    every sender and message, and leaves the router, the Peers object
    included, as it was. *)
Theorem OnGossipUnicast_always_fails (r : Router) (sender : PeerName) (msg : list byte) :
  (exists e : error, fst (OnGossipUnicast sender msg r) = Some e) /\
  snd (OnGossipUnicast sender msg r) = r /\
  peersObj (snd (OnGossipUnicast sender msg r)) = peersObj r.
Proof. split; [by eexists|done]. Qed.

End topology_facts.

(** ** The channel registry *)

Section registry_facts.
Context `{Collaborators}.

(** The Gossiper a surrogate channel for [n] is bound to. *)
Definition surrogateFor (r : Router) (n : string) : Gossiper :=
  match GossiperMaker r with
  | Some MakeGossiper => MakeGossiper n
  | None => surrogateGossiper
  end.

(** The router after [gossipChannel] has created the surrogate for [n]. *)
Definition withSurrogate (n : string) (r : Router) : Router :=
  let channel := length (channelObjs r) in
  setChannels <[n := channel]>
    (setCalls (calls r ++ [callLogf channel "created surrogate channel"])
       (setChannelObjs (channelObjs r ++ [mkChannel n (surrogateFor r n)]) r)).

Lemma NewGossip_duplicate (r : Router) n g first :
  gossipChannels r !! n = Some first ->
  NewGossip n g r =
    ((None, Some (errDuplicateChannel n)),
     setChannelObjs (channelObjs r ++ [mkChannel n g]) r).
Proof.
  intros Hfound. unfold NewGossip, bind, newGossipChannel, gets. simpl.
  by rewrite Hfound.
Qed.

Lemma NewGossip_fresh (r : Router) n g :
  gossipChannels r !! n = None ->
  NewGossip n g r =
    ((Some (length (channelObjs r)), None),
     setChannels <[n := length (channelObjs r)]>
       (setChannelObjs (channelObjs r ++ [mkChannel n g]) r)).
Proof.
  intros Hfresh. unfold NewGossip, bind, newGossipChannel, gets. simpl.
  by rewrite Hfresh.
Qed.

Lemma gossipChannelLocked_known (r : Router) n channel :
  gossipChannels r !! n = Some channel ->
  gossipChannelLocked n r = (channel, r).
Proof.
  intros Hfound. unfold gossipChannelLocked, bind, gets. by rewrite Hfound.
Qed.

Lemma gossipChannelLocked_unknown (r : Router) n :
  gossipChannels r !! n = None ->
  gossipChannelLocked n r = (length (channelObjs r), withSurrogate n r).
Proof.
  intros Hfresh. unfold gossipChannelLocked, bind, gets. rewrite Hfresh.
  unfold withSurrogate, surrogateFor. by destruct (GossiperMaker r).
Qed.

Lemma gossipChannel_known (r : Router) n channel :
  gossipChannels r !! n = Some channel ->
  gossipChannel n r = (channel, r).
Proof.
  intros Hfound. unfold gossipChannel, bind, gossipChannelRLocked, gets.
  by rewrite Hfound.
Qed.

Lemma gossipChannel_unknown (r : Router) n :
  gossipChannels r !! n = None ->
  gossipChannel n r = (length (channelObjs r), withSurrogate n r).
Proof.
  intros Hfresh. unfold gossipChannel, bind, gossipChannelRLocked, gets.
  rewrite Hfresh. by apply gossipChannelLocked_unknown.
Qed.

(** Resolving never makes a delivery: it adds at most the log call. *)
Lemma gossipChannel_no_delivery (r : Router) n :
  filter (fun c => isDelivery c = true) (calls (snd (gossipChannel n r))) =
  filter (fun c => isDelivery c = true) (calls r).
Proof.
  destruct (gossipChannels r !! n) as [channel|] eqn:Hn.
  - by rewrite (gossipChannel_known _ _ _ Hn).
  - rewrite (gossipChannel_unknown _ _ Hn). simpl.
    rewrite filter_app. by rewrite app_nil_r.
Qed.

(** C5: [NewGossip] under a name that already has a channel returns the
    duplicate error and no channel, and leaves the registry mapping and
    every channel object allocated before, the first channel and its
    Gossiper among them, as they were; under a fresh name it returns a new
    channel bound to the given gossiper and stores it under that name. *)
Theorem NewGossip_duplicate_or_stored (r : Router) (n : string) (g : Gossiper) :
  (forall first : chanptr,
     gossipChannels r !! n = Some first ->
     fst (NewGossip n g r) = (None, Some (errDuplicateChannel n)) /\
     gossipChannels (snd (NewGossip n g r)) = gossipChannels r /\
     gossipChannels (snd (NewGossip n g r)) !! n = Some first /\
     forall c obj, channelObjs r !! c = Some obj ->
                   channelObjs (snd (NewGossip n g r)) !! c = Some obj) /\
  (gossipChannels r !! n = None ->
     exists channel : chanptr,
       fst (NewGossip n g r) = (Some channel, None) /\
       channelObjs r !! channel = None /\
       channelObjs (snd (NewGossip n g r)) !! channel = Some (mkChannel n g) /\
       gossipChannels (snd (NewGossip n g r)) = <[n := channel]> (gossipChannels r) /\
       gossipChannels (snd (NewGossip n g r)) !! n = Some channel).
Proof.
  split.
  - intros first Hfound. rewrite (NewGossip_duplicate _ _ _ _ Hfound). simpl.
    repeat split; try done.
    intros c obj Hc. by apply lookup_app_l_Some.
  - intros Hfresh. exists (length (channelObjs r)).
    rewrite (NewGossip_fresh _ _ _ Hfresh). simpl.
    repeat split.
    + by apply lookup_ge_None_2.
    + by rewrite list_lookup_middle.
    + by rewrite lookup_insert_eq.
Qed.

End registry_facts.

(** ** Interleaved resolves and registrations *)

Section interleaving_facts.
Context `{Collaborators}.

(** Whether the name [n], absent at [r0], has a channel at [r]. *)
Definition filledSince (r0 r : Router) (n : string) : nat :=
  match gossipChannels r0 !! n, gossipChannels r !! n with
  | None, Some _ => 1
  | _, _ => 0
  end.

(** Every finished resolve holds the channel the registry has for its
    name. *)
Definition resolvedAgree (ts : list thread) (r : Router) : Prop :=
  forall i n channel,
    ts !! i = Some (resolveDone n channel) -> gossipChannels r !! n = Some channel.

(** The invariant of a run that started at [r0]. *)
Definition runInv (r0 : Router) (cfg : list thread * Router) : Prop :=
  gossipChannels r0 ⊆ gossipChannels cfg.2 /\
  allocated cfg.2 /\
  resolvedAgree cfg.1 cfg.2 /\
  forall n, length (surrogatesFor n cfg.2) <=
            length (surrogatesFor n r0) + filledSince r0 cfg.2 n.

(** Allocating more channel objects does not change the name of an
    allocated one. *)
Lemma named_filter_alloc (objs more : list gossipChannelObj) n (l : list chanptr) :
  Forall (fun c => c < length objs) l ->
  filter (fun c => name <$> (objs ++ more) !! c = Some n) l =
  filter (fun c => name <$> objs !! c = Some n) l.
Proof.
  induction 1 as [|c l Hc _ IH]; [done|].
  rewrite !filter_cons, IH, (lookup_app_l _ _ _ Hc). done.
Qed.

Lemma surrogatesCreated_snoc_created cs channel :
  surrogatesCreated (cs ++ [callLogf channel "created surrogate channel"]) =
  surrogatesCreated cs ++ [channel].
Proof. unfold surrogatesCreated. by rewrite omap_app. Qed.

Lemma allocated_more (r : Router) more :
  allocated r -> allocated (setChannelObjs (channelObjs r ++ more) r).
Proof.
  unfold allocated. simpl. intros Hr.
  eapply Forall_impl; [exact Hr|]. simpl. intros c Hc.
  rewrite length_app. lia.
Qed.

Lemma allocated_withSurrogate (r : Router) n :
  allocated r -> allocated (withSurrogate n r).
Proof.
  unfold allocated, withSurrogate. simpl. intros Hr.
  rewrite surrogatesCreated_snoc_created, Forall_app, Forall_singleton.
  rewrite length_app. simpl. split; [|lia].
  eapply Forall_impl; [exact Hr|]. simpl. lia.
Qed.

Lemma surrogatesFor_more (r : Router) more f n :
  allocated r ->
  surrogatesFor n (setChannels f (setChannelObjs (channelObjs r ++ more) r)) =
  surrogatesFor n r.
Proof. intros Hr. unfold surrogatesFor, channelName. simpl. by apply named_filter_alloc. Qed.

Lemma surrogatesFor_more' (r : Router) more n :
  allocated r ->
  surrogatesFor n (setChannelObjs (channelObjs r ++ more) r) = surrogatesFor n r.
Proof. intros Hr. unfold surrogatesFor, channelName. simpl. by apply named_filter_alloc. Qed.

Lemma list_filter_singleton {A} (P : A -> Prop) `{forall x, Decision (P x)} (x : A) :
  filter P [x] = if decide (P x) then [x] else [].
Proof. rewrite filter_cons, filter_nil. done. Qed.

(** Creating the surrogate for [n] adds one surrogate for [n] and none for
    any other name. *)
Lemma surrogatesFor_withSurrogate (r : Router) n n' :
  allocated r ->
  surrogatesFor n' (withSurrogate n r) =
  surrogatesFor n' r ++ (if decide (n = n') then [length (channelObjs r)] else []).
Proof.
  intros Hr. unfold surrogatesFor, channelName, withSurrogate. simpl.
  rewrite surrogatesCreated_snoc_created, filter_app.
  rewrite (named_filter_alloc _ _ _ _ Hr). f_equal.
  rewrite list_filter_singleton, list_lookup_middle by done. simpl.
  destruct (decide (n = n')) as [->|Hne].
  - by rewrite decide_True.
  - rewrite decide_False; [done|]. intros [= ?]. done.
Qed.

(** One critical section: the registry only grows, allocation is kept, and
    at most one surrogate is created, for a name that gets its channel. *)
Definition grows (r r' : Router) : Prop :=
  gossipChannels r ⊆ gossipChannels r' /\
  (allocated r -> allocated r') /\
  (allocated r ->
   forall n, length (surrogatesFor n r') <= length (surrogatesFor n r) + filledSince r r' n).

Lemma grows_refl (r : Router) : grows r r.
Proof. repeat split; [done|done|]. intros _ n. lia. Qed.

Lemma grows_NewGossip (r : Router) n g : grows r (snd (NewGossip n g r)).
Proof.
  destruct (gossipChannels r !! n) as [first|] eqn:Hn.
  - rewrite (NewGossip_duplicate _ _ _ _ Hn). simpl. repeat split.
    + done.
    + apply allocated_more.
    + intros Hr n'. rewrite surrogatesFor_more' by done. lia.
  - rewrite (NewGossip_fresh _ _ _ Hn). simpl. repeat split.
    + simpl. by apply insert_subseteq.
    + intros Hr. by apply (allocated_more r [mkChannel n g]).
    + intros Hr n'. rewrite surrogatesFor_more by done. lia.
Qed.

Lemma grows_withSurrogate (r : Router) n :
  gossipChannels r !! n = None -> grows r (withSurrogate n r).
Proof.
  intros Hn. repeat split.
  - simpl. by apply insert_subseteq.
  - apply allocated_withSurrogate.
  - intros Hr n'. rewrite surrogatesFor_withSurrogate, length_app by done.
    apply Nat.add_le_mono_l. unfold filledSince.
    destruct (decide (n = n')) as [<-|Hne]; simpl; [|lia].
    rewrite Hn, lookup_insert_eq. done.
Qed.

Lemma grows_gossipChannelLocked (r : Router) n :
  grows r (snd (gossipChannelLocked n r)).
Proof.
  destruct (gossipChannels r !! n) as [channel|] eqn:Hn.
  - rewrite (gossipChannelLocked_known _ _ _ Hn). apply grows_refl.
  - rewrite (gossipChannelLocked_unknown _ _ Hn). by apply grows_withSurrogate.
Qed.

(** The channel a finished resolve holds is the registry's. *)
Lemma gossipChannelLocked_registered (r : Router) n :
  gossipChannels (snd (gossipChannelLocked n r)) !! n = Some (fst (gossipChannelLocked n r)).
Proof.
  destruct (gossipChannels r !! n) as [channel|] eqn:Hn.
  - by rewrite (gossipChannelLocked_known _ _ _ Hn).
  - rewrite (gossipChannelLocked_unknown _ _ Hn). simpl. apply lookup_insert_eq.
Qed.

(** What one step of one thread does to the router and to the thread. *)
Lemma threadStep_grows t m (r r' : Router) t' :
  threadStep t = Some m -> m r = (t', r') ->
  grows r r' /\
  forall n channel, t' = resolveDone n channel -> gossipChannels r' !! n = Some channel.
Proof.
  destruct t as [n|n|n c|n g|n res]; simpl; intros [= <-]; unfold bind, ret.
  - unfold gossipChannelRLocked, gets. intros [= <- <-]. split; [apply grows_refl|].
    intros n' c'. destruct (gossipChannels r !! n) eqn:Hn; [|done].
    by intros [= <- <-].
  - destruct (gossipChannelLocked n r) as [c r1] eqn:Hrun. intros [= <- <-].
    split.
    + pose proof (grows_gossipChannelLocked r n) as Hg. by rewrite Hrun in Hg.
    + intros n' c' [= <- <-].
      pose proof (gossipChannelLocked_registered r n) as Hreg. by rewrite Hrun in Hreg.
  - destruct (NewGossip n g r) as [res r1] eqn:Hrun. intros [= <- <-].
    split; [|done].
    pose proof (grows_NewGossip r n g) as Hg. by rewrite Hrun in Hg.
Qed.

Lemma resolvedAgree_update ts (r r' : Router) i t' :
  resolvedAgree ts r ->
  gossipChannels r ⊆ gossipChannels r' ->
  (forall n channel, t' = resolveDone n channel -> gossipChannels r' !! n = Some channel) ->
  resolvedAgree (<[i := t']> ts) r'.
Proof.
  intros Hagree Hsub Ht' j n channel Hj.
  apply list_lookup_insert_Some in Hj as [(-> & -> & _)|[_ Hj]].
  - by apply Ht'.
  - eapply lookup_weaken; [by eapply Hagree | done].
Qed.

Lemma filledSince_trans (r0 r r' : Router) n a b c :
  gossipChannels r0 ⊆ gossipChannels r ->
  gossipChannels r ⊆ gossipChannels r' ->
  b <= a + filledSince r0 r n ->
  c <= b + filledSince r r' n ->
  c <= a + filledSince r0 r' n.
Proof.
  intros H0 H1. unfold filledSince.
  destruct (gossipChannels r0 !! n) as [c0|] eqn:E0;
    destruct (gossipChannels r !! n) as [c1|] eqn:E1;
    destruct (gossipChannels r' !! n) as [c2|] eqn:E2; try lia.
  - pose proof (lookup_weaken _ _ _ _ E0 H0). congruence.
  - pose proof (lookup_weaken _ _ _ _ E1 H1). congruence.
Qed.

Lemma step_runInv (r0 : Router) cfg cfg' :
  runInv r0 cfg -> step cfg cfg' -> runInv r0 cfg'.
Proof.
  intros (Hsub & Halloc & Hagree & Hcount) Hstep.
  destruct Hstep as [i t t' m ts r r' Hi Hm Hrun]. simpl in *.
  destruct (threadStep_grows _ _ _ _ _ Hm Hrun) as [(Hg1 & Hg2 & Hg3) Hdone].
  repeat split; simpl.
  - by etrans.
  - by apply Hg2.
  - by eapply resolvedAgree_update.
  - intros n. eapply filledSince_trans; [exact Hsub | exact Hg1 | apply Hcount | by apply Hg3].
Qed.

Lemma steps_runInv (r0 : Router) cfg cfg' :
  runInv r0 cfg -> rtc step cfg cfg' -> runInv r0 cfg'.
Proof. intros Hinv Hsteps. induction Hsteps; eauto using step_runInv. Qed.

Lemma runInv_start (r0 : Router) ts :
  allocated r0 -> Forall notStarted ts -> runInv r0 (ts, r0).
Proof.
  intros Halloc Hts. repeat split; simpl; try done.
  - intros i n channel Hi.
    by apply (Forall_lookup_1 _ _ _ _ Hts) in Hi.
  - intros n. lia.
Qed.

(** Whatever the goroutines do, a registered name keeps its channel. *)
Lemma steps_registry_mono (cfg cfg' : list thread * Router) :
  rtc step cfg cfg' -> gossipChannels cfg.2 ⊆ gossipChannels cfg'.2.
Proof.
  induction 1 as [|cfg cfg1 cfg' Hstep _ IH]; [done|].
  etrans; [|exact IH].
  destruct Hstep as [i t t' m ts r r' Hi Hm Hrun]. simpl.
  by destruct (threadStep_grows _ _ _ _ _ Hm Hrun) as [(Hg1 & _) _].
Qed.

(** A schedule is one interleaving. *)
Lemma runSchedule_steps sched ts (r : Router) :
  rtc step (ts, r) (runSchedule sched ts r).
Proof.
  revert ts r. induction sched as [|i sched IH]; intros ts r; simpl; [done|].
  destruct (ts !! i) as [t|] eqn:Hi; [|apply IH].
  destruct (threadStep t) as [m|] eqn:Hm; [|apply IH].
  destruct (m r) as [t' r'] eqn:Hrun.
  eapply rtc_l; [|apply IH]. by econstructor.
Qed.

(** C6: resolving a name that has no channel allocates exactly one channel
    object, bound to what the Gossiper maker produces for the name when the
    router has one and to the default surrogate otherwise, logs it and
    stores it under the name.  After that, whatever goroutines interleave on
    the registry, every resolve of the name returns that channel and leaves
    the router as it is.  And when goroutines race from a registry without
    the name, all those that finish resolving it hold the same channel, the
    one in the registry, and at most one surrogate has been created for
    it. *)
Theorem gossipChannel_surrogate_once (r : Router) (n : string) :
  gossipChannels r !! n = None ->
  let channel := length (channelObjs r) in
  let r1 := snd (gossipChannel n r) in
  (fst (gossipChannel n r) = channel /\
   channelObjs r1 =
     channelObjs r ++
       [mkChannel n (match GossiperMaker r with
                     | Some MakeGossiper => MakeGossiper n
                     | None => surrogateGossiper
                     end)] /\
   gossipChannels r1 = <[n := channel]> (gossipChannels r) /\
   surrogatesCreated (calls r1) = surrogatesCreated (calls r) ++ [channel]) /\
  (forall ts ts' r2,
     rtc step (ts, r1) (ts', r2) -> gossipChannel n r2 = (channel, r2)) /\
  (forall ts ts' r',
     allocated r -> Forall notStarted ts -> rtc step (ts, r) (ts', r') ->
     (forall i j c1 c2,
        ts' !! i = Some (resolveDone n c1) ->
        ts' !! j = Some (resolveDone n c2) ->
        c1 = c2 /\ gossipChannels r' !! n = Some c1) /\
     length (surrogatesFor n r') <= length (surrogatesFor n r) + 1).
Proof.
  intros Hfresh channel r1. subst channel r1.
  rewrite (gossipChannel_unknown _ _ Hfresh). simpl.
  split; [|split].
  - repeat split. apply surrogatesCreated_snoc_created.
  - intros ts ts' r2 Hsteps. apply gossipChannel_known.
    apply steps_registry_mono in Hsteps. simpl in Hsteps.
    eapply lookup_weaken; [|exact Hsteps]. apply lookup_insert_eq.
  - intros ts ts' r' Halloc Hts Hsteps.
    destruct (steps_runInv r _ _ (runInv_start r ts Halloc Hts) Hsteps)
      as (_ & _ & Hagree & Hcount). simpl in *.
    split.
    + intros i j c1 c2 Hi Hj.
      pose proof (Hagree _ _ _ Hi) as H1. pose proof (Hagree _ _ _ Hj) as H2.
      split; [congruence|done].
    + etrans; [apply Hcount|]. apply Nat.add_le_mono_l.
      unfold filledSince. rewrite Hfresh. destruct (gossipChannels r' !! n); lia.
Qed.

End interleaving_facts.

(** ** Dispatch *)

Section dispatch_facts.
Context `{Collaborators}.

(** The delivery a Protocol Tag selects. *)
Definition deliveryCall (tag : protocolTag) (channel : chanptr) (srcName : PeerName)
    (payload : list byte) : call :=
  match tag with
  | ProtocolGossipUnicast => callDeliverUnicast channel srcName payload
  | ProtocolGossipBroadcast => callDeliverBroadcast channel srcName payload
  | ProtocolGossip => callDeliver channel srcName payload
  end.

Lemma isDelivery_deliveryCall tag channel srcName payload :
  isDelivery (deliveryCall tag channel srcName payload) = true.
Proof. by destruct tag. Qed.

Lemma handleGossip_name_error tag payload (r : Router) err d :
  DecodeString (NewDecoder payload) = (inr err, d) ->
  handleGossip tag payload r = (Some err, r).
Proof. intros Hname. unfold handleGossip. by rewrite Hname. Qed.

Lemma handleGossip_sender_error tag payload (r : Router) n d1 err d2 :
  DecodeString (NewDecoder payload) = (inl n, d1) ->
  DecodePeerName d1 = (inr err, d2) ->
  handleGossip tag payload r = (Some err, snd (gossipChannel n r)).
Proof.
  intros Hname Hsrc. unfold handleGossip, bind. rewrite Hname.
  destruct (gossipChannel n r) as [channel r1]. by rewrite Hsrc.
Qed.

Lemma handleGossip_delivers tag payload (r : Router) n d1 srcName d2 :
  DecodeString (NewDecoder payload) = (inl n, d1) ->
  DecodePeerName d1 = (inl srcName, d2) ->
  handleGossip tag payload r =
    (deliveryResult tag (fst (gossipChannel n r)) srcName payload d2,
     setCalls (calls (snd (gossipChannel n r)) ++
               [deliveryCall tag (fst (gossipChannel n r)) srcName payload])
              (snd (gossipChannel n r))).
Proof.
  intros Hname Hsrc. unfold handleGossip, bind. rewrite Hname.
  destruct (gossipChannel n r) as [channel r1]. rewrite Hsrc.
  by destruct tag.
Qed.

Lemma countCalls_gossipChannel (r : Router) n :
  countCalls isDelivery (calls (snd (gossipChannel n r))) = countCalls isDelivery (calls r).
Proof. unfold countCalls. by rewrite gossipChannel_no_delivery. Qed.


(** C10: when the channel name decodes, the sender does not, and the name
    had no channel, [handleGossip] returns the decode error and yet leaves
    behind the surrogate channel it created for the name: registered, found
    by [GetGossip], with no delivery made. *)
Theorem handleGossip_rejected_keeps_surrogate
    (tag : protocolTag) (payload : list byte) (r : Router) n d1 err d2 :
  DecodeString (NewDecoder payload) = (inl n, d1) ->
  DecodePeerName d1 = (inr err, d2) ->
  gossipChannels r !! n = None ->
  let r' := snd (handleGossip tag payload r) in
  let channel := length (channelObjs r) in
  fst (handleGossip tag payload r) = Some err /\
  channelObjs r !! channel = None /\
  channelObjs r' !! channel =
    Some (mkChannel n (match GossiperMaker r with
                       | Some MakeGossiper => MakeGossiper n
                       | None => surrogateGossiper
                       end)) /\
  gossipChannels r' !! n = Some channel /\
  GetGossip n r' = (Some channel, r') /\
  countCalls isDelivery (calls r') = countCalls isDelivery (calls r).
Proof.
  intros Hname Hsrc Hfresh r' channel. subst r' channel.
  rewrite (handleGossip_sender_error _ _ _ _ _ _ _ Hname Hsrc).
  pose proof (countCalls_gossipChannel r n) as Hcount.
  rewrite (gossipChannel_unknown _ _ Hfresh) in *. simpl in *.
  split; [done|]. split; [by apply lookup_ge_None_2|].
  split; [by rewrite list_lookup_middle|].
  split; [apply lookup_insert_eq|]. split; [|done].
  unfold GetGossip, gets. simpl. by rewrite lookup_insert_eq.
Qed.

End dispatch_facts.

(** ** Merge of topology gossip data *)

Section merge_facts.

(** Inserting the names of a list one by one adds the set of the list. *)
Lemma insert_names (l : list N) (acc : peerNameSet) :
  foldl (fun acc name => {[name]} ∪ acc) acc l = list_to_set l ∪ acc.
Proof.
  revert acc. induction l as [|x l IH]; intros acc; simpl.
  - by rewrite union_empty_l_L.
  - rewrite IH, (assoc_L (∪)). f_equal. apply (comm_L (∪)).
Qed.

Lemma insert_set (X acc : peerNameSet) :
  foldl (fun acc name => {[name]} ∪ acc) acc (elements X) = X ∪ acc.
Proof. by rewrite insert_names, list_to_set_elements_L. Qed.

Lemma Merge_topology (A B : topologyGossipData) :
  Merge A (topologyData B) =
    Some (topologyData (mkTopology (peers A) (update A ∪ update B))).
Proof.
  unfold Merge. rewrite !insert_set. do 3 f_equal.
  by rewrite union_empty_r_L, (comm_L (∪)).
Qed.

(** The set of names of a merge result. *)
Definition updateOf (g : option GossipData) : option peerNameSet :=
  match g with
  | Some (topologyData d) => Some (update d)
  | _ => None
  end.

(** C4: the merge of two topology gossip data is the union of their name
    sets (with the receiver's Peers reference); the two orders of merging
    give the same set; and merging a value with itself gives it back. *)
Theorem Merge_union_commutative_idempotent (A B : topologyGossipData) :
  Merge A (topologyData B) =
    Some (topologyData (mkTopology (peers A) (update A ∪ update B))) /\
  updateOf (Merge A (topologyData B)) = updateOf (Merge B (topologyData A)) /\
  Merge A (topologyData A) = Some (topologyData A).
Proof.
  rewrite !Merge_topology. simpl. split; [done|]. split.
  - f_equal. apply (comm_L (∪)).
  - destruct A as [p X]. simpl. do 3 f_equal. apply union_idemp_L.
Qed.

End merge_facts.

(** ** The accept limiter *)

Section limiter_facts.
Import TokenBucket.
Local Open Scope Z_scope.

Lemma available_same_instant (tb : tokenBucket) :
  0 < tokenDelay tb -> tokens tb <= capacity tb ->
  available tb (lastTake tb) = tokens tb.
Proof.
  intros HD Hcap. unfold available.
  rewrite Z.sub_diag, Z.div_0_l by lia. lia.
Qed.

(** A bucket that is not empty serves a call made at the instant of its
    last consumption at once. *)
Lemma wait_immediate (tb : tokenBucket) :
  0 < tokenDelay tb -> 1 <= tokens tb <= capacity tb ->
  wait tb (lastTake tb) =
    (lastTake tb, mkBucket (capacity tb) (tokenDelay tb) (tokens tb - 1) (lastTake tb)).
Proof.
  intros HD Htok. unfold wait.
  rewrite available_same_instant by lia.
  by rewrite decide_True by lia.
Qed.

Lemma waits_immediate (n : nat) (tb : tokenBucket) :
  0 < tokenDelay tb -> Z.of_nat n <= tokens tb <= capacity tb ->
  waits n tb (lastTake tb) =
    (replicate n (lastTake tb),
     match n with
     | O => tb
     | S _ => mkBucket (capacity tb) (tokenDelay tb) (tokens tb - Z.of_nat n) (lastTake tb)
     end).
Proof.
  revert tb. induction n as [|n IH]; intros tb HD Htok; [done|].
  cbn [waits]. rewrite wait_immediate by lia.
  specialize (IH (mkBucket (capacity tb) (tokenDelay tb) (tokens tb - 1) (lastTake tb))).
  cbn [capacity tokenDelay tokens lastTake] in IH.
  rewrite IH by lia. cbn [replicate]. f_equal.
  destruct n; [done|]. f_equal. lia.
Qed.

(** The first call on a new bucket, at or after its creation. *)
Lemma wait_new (C D t0 now : Z) :
  1 <= C -> 0 < D -> t0 <= now ->
  wait (newTokenBucket C D t0) now = (now, mkBucket C D (C - 1) now).
Proof.
  intros HC HD Ht. unfold wait, available, newTokenBucket. simpl.
  assert (0 <= (now - t0) / D) by (apply Z.div_pos; lia).
  rewrite Z.min_l by lia. by rewrite decide_True by lia.
Qed.

Lemma waits_new (C D t0 now : Z) :
  1 <= C -> 0 < D -> t0 <= now ->
  waits (Z.to_nat C) (newTokenBucket C D t0) now =
    (replicate (Z.to_nat C) now, mkBucket C D 0 now).
Proof.
  intros HC HD Ht.
  replace (Z.to_nat C) with (S (Z.to_nat (C - 1))) by lia.
  cbn [waits]. rewrite wait_new by lia.
  pose proof (waits_immediate (Z.to_nat (C - 1)) (mkBucket C D (C - 1) now)) as Hrest.
  cbn [capacity tokenDelay tokens lastTake] in Hrest.
  rewrite Hrest by lia. cbn [replicate]. f_equal.
  destruct (Z.to_nat (C - 1)) eqn:E; f_equal; lia.
Qed.

(** An empty bucket makes a call at the instant of its last consumption
    wait for the whole delay. *)
Lemma wait_empty (C D now : Z) :
  1 <= C -> 0 < D ->
  wait (mkBucket C D 0 now) now = (now + D, mkBucket C D 0 (now + D)).
Proof.
  intros HC HD. unfold wait, available. simpl.
  rewrite Z.sub_diag, Z.div_0_l by lia.
  rewrite Z.min_r by lia. by rewrite decide_False by lia.
Qed.

(** What any call of [wait] does. *)
Lemma wait_blocks_until_token (tb : tokenBucket) (now : Z) :
  1 <= capacity tb -> 0 < tokenDelay tb -> 0 <= tokens tb -> lastTake tb <= now ->
  now <= fst (wait tb now) /\
  1 <= available tb (fst (wait tb now)) /\
  (forall t, now <= t < fst (wait tb now) -> available tb t < 1) /\
  tokens (snd (wait tb now)) = available tb (fst (wait tb now)) - 1 /\
  lastTake (snd (wait tb now)) = fst (wait tb now).
Proof.
  intros HC HD Htok Hnow. unfold wait.
  destruct (decide (1 <= available tb now)) as [Hav|Hav]; simpl.
  - repeat split; try lia.
  - assert (tokens tb = 0 /\ (now - lastTake tb) / tokenDelay tb = 0) as [H0 Hq].
    { unfold available in Hav.
      assert (0 <= (now - lastTake tb) / tokenDelay tb) by (apply Z.div_pos; lia).
      lia. }
    assert (now - lastTake tb < tokenDelay tb) as Hlt.
    { apply Z.div_small_iff in Hq; lia. }
    assert (available tb (lastTake tb + tokenDelay tb) = 1) as Hone.
    { unfold available. rewrite H0.
      replace (lastTake tb + tokenDelay tb - lastTake tb) with (tokenDelay tb) by lia.
      rewrite Z.div_same by lia. lia. }
    repeat split; try lia.
    intros t Ht. unfold available.
    assert ((t - lastTake tb) / tokenDelay tb = 0) as ->
      by (apply Z.div_small; lia).
    lia.
Qed.

(** C9: for a bucket of capacity C and refill delay D, C calls of [wait]
    with no delay between them all return at the instant they were issued,
    the call after them returns no earlier than D later, and any call
    returns at the first instant at which a token is available, having
    consumed it. *)
Theorem tokenBucket_burst_then_delay (C D t0 now : Z) :
  1 <= C -> 0 < D -> t0 <= now ->
  let tb := newTokenBucket C D t0 in
  fst (waits (Z.to_nat C) tb now) = replicate (Z.to_nat C) now /\
  D <= fst (wait (snd (waits (Z.to_nat C) tb now)) now) - now /\
  (forall (b : tokenBucket) (t : Z),
     capacity b = C -> tokenDelay b = D -> 0 <= tokens b -> lastTake b <= t ->
     t <= fst (wait b t) /\
     1 <= available b (fst (wait b t)) /\
     (forall t', t <= t' < fst (wait b t) -> available b t' < 1) /\
     tokens (snd (wait b t)) = available b (fst (wait b t)) - 1 /\
     lastTake (snd (wait b t)) = fst (wait b t)).
Proof.
  intros HC HD Ht tb. subst tb.
  rewrite waits_new by lia. simpl. split; [done|]. split.
  - rewrite wait_empty by lia. simpl. lia.
  - intros b t Hcap Hdelay Htok Hlast.
    apply wait_blocks_until_token; lia.
Qed.

End limiter_facts.

(** ** Construction *)

Section construction_facts.
Context `{Collaborators}.

(** [NewRouter] succeeds: "topology" is the first name registered. *)
Lemma NewRouter_ok (peersAddr : peersptr) (po : PeersObj) (now : Z) :
  NewRouter peersAddr po now =
    (Some (mkRouter peersAddr None {["topology" := 0]} (Some 0)
             (Some (TokenBucket.newTokenBucket acceptMaxTokens acceptTokenDelay now))
             po [mkChannel "topology" routerGossiper] []),
     None).
Proof. reflexivity. Qed.

Lemma NewRouter_allocated (peersAddr : peersptr) (po : PeersObj) (now : Z) (r : Router) :
  NewRouter peersAddr po now = (Some r, None) -> allocated r.
Proof. rewrite NewRouter_ok. intros [= <-]. constructor. Qed.

(** The accept loop waits on the bucket made from the two constants. *)
Lemma acceptLimiterWait_NewRouter (peersAddr : peersptr) (po : PeersObj) (t0 now : Z) (r : Router) :
  NewRouter peersAddr po t0 = (Some r, None) ->
  fst (acceptLimiterWait now r) =
    Some (fst (TokenBucket.wait
                 (TokenBucket.newTokenBucket acceptMaxTokens acceptTokenDelay t0) now)).
Proof.
  rewrite NewRouter_ok. intros [= <-]. unfold acceptLimiterWait. simpl.
  by destruct (TokenBucket.wait _ now).
Qed.

End construction_facts.

(** * Runs on the sample collaborators *)

Section sample_runs.
Import Sample.
Local Open Scope N_scope.

Definition appTruncated : list byte := [x03; x61; x70; x70].

Lemma router0_allocated : allocated router0.
Proof. constructor. Qed.

(** C1, as stated, fails: peers 1 and 2 are both known to the router, so
    the update naming them teaches it nothing (its newUpdate is empty), and
    [OnGossipBroadcast] still returns the received delta for relay. *)
Lemma OnGossipBroadcast_redundant_is_relayed :
  Sample.applyUpdate (peersObj router0) [x01; x02] =
    (({[1; 2]}, ∅, None), {[1; 2]}) /\
  fst (OnGossipBroadcast 7 [x01; x02] router0) =
    (Some (topologyData (mkTopology 0%nat {[1; 2]})), None).
Proof. split; vm_compute; reflexivity. Qed.

Lemma OnGossipBroadcast_relays_received_run :
  Sample.applyUpdate (peersObj router0) [x01; x03] =
    (({[1; 3]}, {[3]}, None), {[1; 2; 3]}) /\
  fst (OnGossipBroadcast 7 [x01; x03] router0) =
    (Some (topologyData (mkTopology 0%nat {[1; 3]})), None) /\
  peersObj (snd (OnGossipBroadcast 7 [x01; x03] router0)) = {[1; 2; 3]} /\
  calls (snd (OnGossipBroadcast 7 [x01; x03] router0)) = [callRefresh; callRecalculate].
Proof.
  assert (Sample.applyUpdate (peersObj router0) [x01; x03] =
            (({[1; 3]}, {[3]}, None), {[1; 2; 3]})) as Happ
    by (vm_compute; reflexivity).
  split; [exact Happ|].
  destruct (OnGossipBroadcast_relays_received router0 7 [x01; x03] _ _ _ Happ)
    as [Heq Hpeers].
  split; [|split; [exact Hpeers|]].
  - refine (eq_trans (f_equal fst Heq) _). vm_compute. reflexivity.
  - refine (eq_trans (f_equal (fun res => calls (snd res)) Heq) _).
    vm_compute. reflexivity.
Defined.

Lemma topology_update_triggers_once_run :
  exists made : list call,
    calls (snd (OnGossip [x01; x03] router0)) = calls router0 ++ made /\
    made = [callRefresh; callRecalculate] /\
    countCalls isRefresh made = 1%nat /\
    countCalls isRecalculate made = 1%nat.
Proof.
  assert (Sample.applyUpdate (peersObj router0) [x01; x03] =
            (({[1; 3]}, {[3]}, None), {[1; 2; 3]})) as Happ
    by (vm_compute; reflexivity).
  destruct (topology_update_triggers_once router0 7 [x01; x03] _ _ _ Happ
              _ (or_intror eq_refl)) as (made & Hcalls & Hmade & Hrefresh & Hrecalc).
  exists made. split; [exact Hcalls|]. split; [exact Hmade|].
  split; [exact Hrefresh | exact Hrecalc].
Defined.

Lemma OnGossip_returns_improvement_run :
  Sample.applyUpdate (peersObj router0) [x01; x03] =
    (({[1; 3]}, {[3]}, None), {[1; 2; 3]}) /\
  fst (OnGossip [x01; x03] router0) =
    (Some (topologyData (mkTopology 0%nat {[3]})), None) /\
  peersObj (snd (OnGossip [x01; x03] router0)) = {[1; 2; 3]} /\
  calls (snd (OnGossip [x01; x03] router0)) = [callRefresh; callRecalculate].
Proof.
  assert (Sample.applyUpdate (peersObj router0) [x01; x03] =
            (({[1; 3]}, {[3]}, None), {[1; 2; 3]})) as Happ
    by (vm_compute; reflexivity).
  split; [exact Happ|].
  destruct (OnGossip_returns_improvement router0 [x01; x03] _ _ _ Happ)
    as [Heq Hpeers].
  split; [|split; [exact Hpeers|]].
  - refine (eq_trans (f_equal fst Heq) _). vm_compute. reflexivity.
  - refine (eq_trans (f_equal (fun res => calls (snd res)) Heq) _).
    vm_compute. reflexivity.
Defined.

Lemma NewGossip_duplicate_or_stored_run :
  gossipChannels router0 !! "topology" = Some 0%nat /\
  fst (NewGossip "topology" (madeGossiper 1) router0) =
    (None, Some (errDuplicateChannel "topology")) /\
  gossipChannels (snd (NewGossip "topology" (madeGossiper 1) router0)) =
    gossipChannels router0.
Proof.
  split; [reflexivity|].
  destruct (proj1 (NewGossip_duplicate_or_stored router0 "topology" (madeGossiper 1))
              0%nat eq_refl) as (Herr & Hsame & _).
  exact (conj Herr Hsame).
Defined.

Lemma gossipChannel_surrogate_once_run :
  gossipChannels router0 !! "app" = None /\
  fst (gossipChannel "app" router0) = 1%nat /\
  channelObjs (snd (gossipChannel "app" router0)) =
    [mkChannel "topology" routerGossiper; mkChannel "app" surrogateGossiper].
Proof.
  split; [reflexivity|].
  destruct (gossipChannel_surrogate_once router0 "app" eq_refl) as ((Hc & Hobjs & _) & _).
  exact (conj Hc Hobjs).
Defined.

(** Two goroutines resolve "app" and both miss under the read lock before
    either takes the write lock: one channel is created and both get it. *)
Example resolve_race :
  runSchedule [0; 1; 0; 1]%nat [resolveStart "app"; resolveStart "app"] router0 =
    ([resolveDone "app" 1; resolveDone "app" 1]%nat,
     snd (gossipChannel "app" router0)).
Proof. vm_compute. reflexivity. Qed.


Lemma handleGossip_rejected_keeps_surrogate_run :
  DecodeString (NewDecoder appTruncated) = (inl "app", []) /\
  DecodePeerName [] = (inr (errForeign "EOF"), []) /\
  gossipChannels router0 !! "app" = None /\
  fst (handleGossip ProtocolGossip appTruncated router0) = Some (errForeign "EOF") /\
  gossipChannels (snd (handleGossip ProtocolGossip appTruncated router0)) !! "app" = Some 1%nat.
Proof.
  split; [reflexivity|]. split; [reflexivity|]. split; [reflexivity|].
  destruct (handleGossip_rejected_keeps_surrogate ProtocolGossip appTruncated router0
              "app"%string [] (errForeign "EOF") [] eq_refl eq_refl eq_refl)
    as (Herr & _ & _ & Hreg & _).
  exact (conj Herr Hreg).
Defined.

(** The accept limiter of a new router: twenty calls at once, and the
    twenty-first 50ms later. *)
Lemma tokenBucket_burst_then_delay_run :
  acceptLimiter router0 =
    Some (TokenBucket.newTokenBucket acceptMaxTokens acceptTokenDelay 0) /\
  (1 <= acceptMaxTokens /\ 0 < acceptTokenDelay /\ 0 <= 5)%Z /\
  fst (TokenBucket.waits 20 (TokenBucket.newTokenBucket acceptMaxTokens acceptTokenDelay 0) 5) =
    replicate 20 5%Z /\
  (acceptTokenDelay <=
   fst (TokenBucket.wait
          (snd (TokenBucket.waits 20
                  (TokenBucket.newTokenBucket acceptMaxTokens acceptTokenDelay 0) 5)) 5) - 5)%Z.
Proof.
  split; [reflexivity|].
  assert (1 <= acceptMaxTokens)%Z as HC by (unfold acceptMaxTokens; lia).
  assert (0 < acceptTokenDelay)%Z as HD by (unfold acceptTokenDelay, Millisecond; lia).
  assert (0 <= 5)%Z as Ht by lia.
  split; [exact (conj HC (conj HD Ht))|].
  destruct (tokenBucket_burst_then_delay acceptMaxTokens acceptTokenDelay 0 5 HC HD Ht)
    as (Hburst & Hdelay & _).
  exact (conj Hburst Hdelay).
Defined.

End sample_runs.

(** * Further properties of router.go *)

(** ** Well-formed registries, frames and sequences of operations *)

Section registry_more.
Context `{Collaborators}.

(** Every name of the registry points to an allocated channel object that
    carries that name. *)
Definition registryWf (r : Router) : Prop :=
  forall n c, gossipChannels r !! n = Some c -> name <$> channelObjs r !! c = Some n.

(** [r'] keeps what [r] has: every registered name keeps its channel and
    every channel object stays as it is. *)
Definition keeps (r r' : Router) : Prop :=
  gossipChannels r ⊆ gossipChannels r' /\
  forall c obj, channelObjs r !! c = Some obj -> channelObjs r' !! c = Some obj.

(** The operations of router.go that act on a router after construction. *)
Inductive op :=
  | opNewGossip (channelName : string) (g : Gossiper)
  | opGetGossip (channelName : string)
  | opGossipChannel (channelName : string)
  | opHandleGossip (tag : protocolTag) (payload : list byte)
  | opOnGossipUnicast (sender : PeerName) (msg : list byte)
  | opOnGossipBroadcast (sender : PeerName) (upd : list byte)
  | opOnGossip (upd : list byte)
  | opGossip.

Definition runOp (o : op) (r : Router) : Router :=
  match o with
  | opNewGossip n g => snd (NewGossip n g r)
  | opGetGossip n => snd (GetGossip n r)
  | opGossipChannel n => snd (gossipChannel n r)
  | opHandleGossip tag payload => snd (handleGossip tag payload r)
  | opOnGossipUnicast sender msg => snd (OnGossipUnicast sender msg r)
  | opOnGossipBroadcast sender upd => snd (OnGossipBroadcast sender upd r)
  | opOnGossip upd => snd (OnGossip upd r)
  | opGossip => snd (Gossip r)
  end.

Definition runOps (ops : list op) (r : Router) : Router :=
  foldl (fun r o => runOp o r) r ops.

Lemma keeps_refl (r : Router) : keeps r r.
Proof. by split. Qed.

Lemma keeps_trans (r1 r2 r3 : Router) : keeps r1 r2 -> keeps r2 r3 -> keeps r1 r3.
Proof. intros [Ha Hb] [Hc Hd]. split; [by etrans | eauto]. Qed.

Lemma named_more (objs more : list gossipChannelObj) c n :
  name <$> objs !! c = Some n -> name <$> (objs ++ more) !! c = Some n.
Proof.
  destruct (objs !! c) as [obj|] eqn:Hc; [|done].
  by rewrite (lookup_app_l_Some _ _ _ _ Hc).
Qed.

Lemma keeps_NewGossip (r : Router) n g : keeps r (snd (NewGossip n g r)).
Proof.
  destruct (gossipChannels r !! n) as [first|] eqn:Hn.
  - rewrite (NewGossip_duplicate _ _ _ _ Hn). split; [done|].
    intros c obj Hc. by apply lookup_app_l_Some.
  - rewrite (NewGossip_fresh _ _ _ Hn). split; simpl.
    + by apply insert_subseteq.
    + intros c obj Hc. by apply lookup_app_l_Some.
Qed.

Lemma keeps_gossipChannel (r : Router) n : keeps r (snd (gossipChannel n r)).
Proof.
  destruct (gossipChannels r !! n) as [channel|] eqn:Hn.
  - rewrite (gossipChannel_known _ _ _ Hn). apply keeps_refl.
  - rewrite (gossipChannel_unknown _ _ Hn). split; simpl.
    + by apply insert_subseteq.
    + intros c obj Hc. by apply lookup_app_l_Some.
Qed.

Lemma registryWf_NewGossip (r : Router) n g :
  registryWf r -> registryWf (snd (NewGossip n g r)).
Proof.
  intros Hwf. destruct (gossipChannels r !! n) as [first|] eqn:Hn.
  - rewrite (NewGossip_duplicate _ _ _ _ Hn). intros n' c Hc. simpl in *.
    by apply named_more, Hwf.
  - rewrite (NewGossip_fresh _ _ _ Hn). intros n' c Hc. simpl in *.
    apply lookup_insert_Some in Hc as [[<- <-]|[_ Hc]].
    + by rewrite list_lookup_middle.
    + by apply named_more, Hwf.
Qed.

Lemma registryWf_gossipChannel (r : Router) n :
  registryWf r -> registryWf (snd (gossipChannel n r)).
Proof.
  intros Hwf. destruct (gossipChannels r !! n) as [channel|] eqn:Hn.
  - by rewrite (gossipChannel_known _ _ _ Hn).
  - rewrite (gossipChannel_unknown _ _ Hn). intros n' c Hc. simpl in *.
    apply lookup_insert_Some in Hc as [[<- <-]|[_ Hc]].
    + by rewrite list_lookup_middle.
    + by apply named_more, Hwf.
Qed.

(** The router [handleGossip] leaves behind: the one it was given when the
    channel name does not decode, and otherwise the one after resolution
    with at most a delivery call added. *)
Lemma handleGossip_state tag payload (r : Router) :
  (exists err d,
     DecodeString (NewDecoder payload) = (inr err, d) /\
     snd (handleGossip tag payload r) = r) \/
  (exists n d cs,
     DecodeString (NewDecoder payload) = (inl n, d) /\
     snd (handleGossip tag payload r) =
       setCalls (calls (snd (gossipChannel n r)) ++ cs) (snd (gossipChannel n r))).
Proof.
  destruct (DecodeString (NewDecoder payload)) as [[n|err] d] eqn:Hname.
  - right. exists n, d.
    destruct (DecodePeerName d) as [[srcName|err] d2] eqn:Hsrc.
    + eexists. split; [done|].
      by rewrite (handleGossip_delivers _ _ _ _ _ _ _ Hname Hsrc).
    + exists []. split; [done|].
      rewrite (handleGossip_sender_error _ _ _ _ _ _ _ Hname Hsrc). simpl.
      by rewrite setCalls_nil_r.
  - left. exists err, d. split; [done|].
    by rewrite (handleGossip_name_error _ _ _ _ _ Hname).
Qed.

(** The router the topology callbacks leave behind. *)
Lemma applyTopologyUpdate_state (r : Router) upd :
  exists p cs, snd (applyTopologyUpdate upd r) = setCalls (calls r ++ cs) (setPeersObj p r).
Proof.
  destruct (applyUpdate (peersObj r) upd) as [[[o nw] [e|]] p] eqn:Happ.
  - exists p, []. rewrite (applyTopologyUpdate_err _ _ _ _ _ _ Happ). simpl.
    by rewrite <- (setCalls_nil_r (setPeersObj p r)) at 1.
  - exists p, (triggered nw). by rewrite (applyTopologyUpdate_ok _ _ _ _ _ Happ).
Qed.

Lemma OnGossipBroadcast_snd (r : Router) sender upd :
  snd (OnGossipBroadcast sender upd r) = snd (applyTopologyUpdate upd r).
Proof.
  unfold OnGossipBroadcast, bind.
  destruct (applyTopologyUpdate upd r) as [[[o nw] e] r1]. by destruct (decide _).
Qed.

Lemma OnGossip_snd (r : Router) upd :
  snd (OnGossip upd r) = snd (applyTopologyUpdate upd r).
Proof.
  unfold OnGossip, bind.
  destruct (applyTopologyUpdate upd r) as [[[o nw] e] r1]. by destruct (decide _).
Qed.

Lemma runOp_keeps (o : op) (r : Router) : keeps r (runOp o r).
Proof.
  destruct o as [n g|n|n|tag payload|sender msg|sender upd|upd|]; simpl;
    try apply keeps_refl.
  - apply keeps_NewGossip.
  - apply keeps_gossipChannel.
  - destruct (handleGossip_state tag payload r) as [(err & d & _ & ->)|(n & d & cs & _ & ->)].
    + apply keeps_refl.
    + apply (keeps_gossipChannel r n).
  - rewrite OnGossipBroadcast_snd.
    destruct (applyTopologyUpdate_state r upd) as (p & cs & ->). by split.
  - rewrite OnGossip_snd.
    destruct (applyTopologyUpdate_state r upd) as (p & cs & ->). by split.
Qed.

Lemma runOp_registryWf (o : op) (r : Router) : registryWf r -> registryWf (runOp o r).
Proof.
  intros Hwf.
  destruct o as [n g|n|n|tag payload|sender msg|sender upd|upd|]; simpl; try done.
  - by apply registryWf_NewGossip.
  - by apply registryWf_gossipChannel.
  - destruct (handleGossip_state tag payload r) as [(err & d & _ & ->)|(n & d & cs & _ & ->)].
    + done.
    + by apply (registryWf_gossipChannel r n).
  - rewrite OnGossipBroadcast_snd.
    by destruct (applyTopologyUpdate_state r upd) as (p & cs & ->).
  - rewrite OnGossip_snd.
    by destruct (applyTopologyUpdate_state r upd) as (p & cs & ->).
Qed.

Lemma runOps_keeps (ops : list op) (r : Router) : keeps r (runOps ops r).
Proof.
  revert r. induction ops as [|o ops IH]; intros r; [apply keeps_refl|].
  eapply keeps_trans; [apply (runOp_keeps o)|apply IH].
Qed.

Lemma runOps_registryWf (ops : list op) (r : Router) :
  registryWf r -> registryWf (runOps ops r).
Proof.
  revert r. induction ops as [|o ops IH]; intros r Hwf; [done|].
  apply IH. by apply runOp_registryWf.
Qed.

Lemma registryWf_injective (r : Router) n1 n2 c :
  registryWf r ->
  gossipChannels r !! n1 = Some c -> gossipChannels r !! n2 = Some c -> n1 = n2.
Proof.
  intros Hwf H1 H2. apply Hwf in H1. apply Hwf in H2. congruence.
Qed.

End registry_more.

Section registry_extras.
Context `{Collaborators}.

(** X1: [NewRouter] always succeeds.  The router it returns has exactly one
    channel, "topology", bound to the router itself and kept in
    [topologyGossip]; no Gossiper maker; and no call made yet.  Any later
    [NewGossip] under "topology" is refused. *)
Theorem NewRouter_registers_topology (peersAddr : peersptr) (po : PeersObj) (now : Z) :
  exists (r : Router) (c : chanptr),
    NewRouter peersAddr po now = (Some r, None) /\
    topologyGossip r = Some c /\
    GetGossip "topology" r = (Some c, r) /\
    channelObjs r !! c = Some (mkChannel "topology" routerGossiper) /\
    dom (gossipChannels r) = {["topology"]} /\
    GossiperMaker r = None /\
    calls r = [] /\
    peersObj r = po /\
    forall g, fst (NewGossip "topology" g r) = (None, Some (errDuplicateChannel "topology")).
Proof.
  eexists _, 0. rewrite NewRouter_ok. split; [done|]. simpl.
  split; [done|]. split; [done|]. split; [done|].
  split; [by rewrite dom_singleton_L|]. split; [done|]. split; [done|]. split; [done|].
  intros g. by erewrite NewGossip_duplicate.
Qed.

(** X2: [NewGossip], whether it succeeds or fails, allocates one channel
    object, leaves every channel object allocated before, every other
    name's entry, the calls made and the Peers object as they were, and
    [GetGossip] reads the registry without changing the router. *)
Theorem NewGossip_frame (r : Router) (n : string) (g : Gossiper) :
  let r1 := snd (NewGossip n g r) in
  length (channelObjs r1) = S (length (channelObjs r)) /\
  (forall c obj, channelObjs r !! c = Some obj -> channelObjs r1 !! c = Some obj) /\
  (forall n', n' <> n -> GetGossip n' r1 = (fst (GetGossip n' r), r1)) /\
  (forall n', snd (GetGossip n' r1) = r1) /\
  calls r1 = calls r /\
  peersObj r1 = peersObj r /\
  GossiperMaker r1 = GossiperMaker r.
Proof.
  intros r1. subst r1. split; [|split; [apply keeps_NewGossip|]].
  - destruct (gossipChannels r !! n) as [first|] eqn:Hn.
    + rewrite (NewGossip_duplicate _ _ _ _ Hn). simpl. rewrite length_app. simpl. lia.
    + rewrite (NewGossip_fresh _ _ _ Hn). simpl. rewrite length_app. simpl. lia.
  - destruct (gossipChannels r !! n) as [first|] eqn:Hn.
    + rewrite (NewGossip_duplicate _ _ _ _ Hn). by repeat split.
    + rewrite (NewGossip_fresh _ _ _ Hn). repeat split.
      intros n' Hne. unfold GetGossip, gets. simpl.
      by rewrite lookup_insert_ne.
Qed.

(** X3: [gossipChannel] returns the channel the registry holds for the name
    once it is done; it leaves every other name's entry, every channel
    object allocated before and the Peers object as they were; and when the
    name already had a channel the router is not changed at all, the
    Gossiper maker not being asked. *)
Theorem gossipChannel_frame (r : Router) (n : string) :
  let channel := fst (gossipChannel n r) in
  let r1 := snd (gossipChannel n r) in
  gossipChannels r1 !! n = Some channel /\
  (forall n', n' <> n -> gossipChannels r1 !! n' = gossipChannels r !! n') /\
  (forall c obj, channelObjs r !! c = Some obj -> channelObjs r1 !! c = Some obj) /\
  peersObj r1 = peersObj r /\
  (forall first, gossipChannels r !! n = Some first -> channel = first /\ r1 = r).
Proof.
  intros channel r1. subst channel r1.
  destruct (gossipChannels r !! n) as [first|] eqn:Hn.
  - rewrite (gossipChannel_known _ _ _ Hn). simpl. repeat split; try done.
    congruence.
  - rewrite (gossipChannel_unknown _ _ Hn). simpl. repeat split; try done.
    + apply lookup_insert_eq.
    + intros n' Hne. by rewrite lookup_insert_ne.
    + intros c obj Hc. by apply lookup_app_l_Some.
Qed.

(** After [handleGossip] on a payload whose channel name decodes, the
    registry holds a channel for that name. *)
Lemma handleGossip_registers tag payload (r : Router) n d :
  DecodeString (NewDecoder payload) = (inl n, d) ->
  is_Some (gossipChannels (snd (handleGossip tag payload r)) !! n).
Proof.
  intros Hname.
  destruct (handleGossip_state tag payload r) as [(err & d' & Hd & _)|(n' & d' & cs & Hd & ->)].
  - congruence.
  - assert (n' = n) as -> by congruence. simpl.
    destruct (gossipChannels r !! n) as [first|] eqn:Hn.
    + rewrite (gossipChannel_known _ _ _ Hn). simpl. by eexists.
    + rewrite (gossipChannel_unknown _ _ Hn). simpl. rewrite lookup_insert_eq. by eexists.
Qed.

(** X4: once a message whose channel name decodes to [n] has been handled,
    whatever its tag and whether or not the rest of it was accepted, an
    explicit registration under [n] is refused as a duplicate: the
    surrogate made for an early message keeps the name. *)
Theorem handled_name_blocks_NewGossip
    (tag : protocolTag) (payload : list byte) (r : Router) (n : string) (d : Decoder) (g : Gossiper) :
  DecodeString (NewDecoder payload) = (inl n, d) ->
  let r1 := snd (handleGossip tag payload r) in
  fst (NewGossip n g r1) = (None, Some (errDuplicateChannel n)) /\
  gossipChannels (snd (NewGossip n g r1)) = gossipChannels r1 /\
  (gossipChannels r !! n = None ->
   exists c, gossipChannels r1 !! n = Some c /\
             channelObjs r1 !! c =
               Some (mkChannel n (match GossiperMaker r with
                                  | Some MakeGossiper => MakeGossiper n
                                  | None => surrogateGossiper
                                  end))).
Proof.
  intros Hname r1. subst r1.
  destruct (handleGossip_registers tag payload r n d Hname) as [c Hc].
  rewrite (NewGossip_duplicate _ _ _ _ Hc). simpl. split; [done|]. split; [done|].
  intros Hfresh.
  destruct (handleGossip_state tag payload r) as [(err & d' & Hd & _)|(n' & d' & cs & Hd & Hst)];
    [congruence|].
  assert (n' = n) as -> by congruence.
  rewrite Hst. rewrite (gossipChannel_unknown _ _ Hfresh). simpl.
  exists (length (channelObjs r)). split; [apply lookup_insert_eq|].
  by rewrite list_lookup_middle.
Qed.

(** X5: in every router reached from [NewRouter] by any sequence of the
    operations of this file, each registered name points to an allocated
    channel object carrying that name, two names never share a channel, and
    "topology" is still the first channel, bound to the router itself. *)
Theorem reachable_registry_wellformed (peersAddr : peersptr) (po : PeersObj) (now : Z) :
  exists r0 : Router,
    NewRouter peersAddr po now = (Some r0, None) /\
    forall ops : list op,
      let r := runOps ops r0 in
      (forall n c, gossipChannels r !! n = Some c ->
                   exists obj, channelObjs r !! c = Some obj /\ name obj = n) /\
      (forall n1 n2 c, gossipChannels r !! n1 = Some c ->
                       gossipChannels r !! n2 = Some c -> n1 = n2) /\
      gossipChannels r !! "topology" = Some 0 /\
      channelObjs r !! 0 = Some (mkChannel "topology" routerGossiper).
Proof.
  eexists. rewrite NewRouter_ok. split; [done|]. intros ops r.
  set (r0 := mkRouter _ _ _ _ _ _ _ _) in r.
  assert (registryWf r0) as Hwf0.
  { intros n c Hc. subst r0. simpl in Hc.
    apply lookup_singleton_Some in Hc as [<- <-]. done. }
  pose proof (runOps_registryWf ops r0 Hwf0) as Hwf.
  destruct (runOps_keeps ops r0) as [Hsub Hobjs]. fold r in Hwf, Hsub, Hobjs.
  split; [|split; [|split]].
  - intros n c Hc. apply Hwf in Hc.
    destruct (channelObjs r !! c) as [obj|]; [|done].
    exists obj. split; [done|]. by injection Hc.
  - intros n1 n2 c. by apply registryWf_injective.
  - eapply lookup_weaken; [|exact Hsub]. done.
  - by apply Hobjs.
Qed.

(** X6: by its decode, resolution and dispatch, [handleGossip] never
    removes or rebinds a channel, never changes a channel object, keeps the
    registry well-formed, and allocates at most one channel object: none
    when the channel name does not decode or already has a channel.  (What
    the delivery then does through the Gossiper, to Peers for one, is the
    callback's and is not stated here.) *)
Theorem handleGossip_growth (tag : protocolTag) (payload : list byte) (r : Router) :
  let r1 := snd (handleGossip tag payload r) in
  gossipChannels r ⊆ gossipChannels r1 /\
  (forall c obj, channelObjs r !! c = Some obj -> channelObjs r1 !! c = Some obj) /\
  length (channelObjs r1) <= S (length (channelObjs r)) /\
  (registryWf r -> registryWf r1) /\
  (forall err d, DecodeString (NewDecoder payload) = (inr err, d) ->
                 gossipChannels r1 = gossipChannels r /\ channelObjs r1 = channelObjs r) /\
  (forall n d first, DecodeString (NewDecoder payload) = (inl n, d) ->
                     gossipChannels r !! n = Some first ->
                     gossipChannels r1 = gossipChannels r /\ channelObjs r1 = channelObjs r).
Proof.
  intros r1. subst r1.
  pose proof (runOp_keeps (opHandleGossip tag payload) r) as [Hsub Hobjs].
  pose proof (runOp_registryWf (opHandleGossip tag payload) r) as Hwf.
  simpl in Hsub, Hobjs, Hwf.
  split; [done|]. split; [done|].
  destruct (handleGossip_state tag payload r) as [(err & d & Hd & Hst)|(n & d & cs & Hd & Hst)];
    rewrite Hst in *; clear Hst.
  - repeat split; try done; try lia; intros; congruence.
  - simpl. destruct (gossipChannels r !! n) as [first|] eqn:Hn.
    + rewrite (gossipChannel_known _ _ _ Hn) in *. simpl.
      repeat split; try done; try lia; intros; congruence.
    + rewrite (gossipChannel_unknown _ _ Hn) in *. simpl.
      repeat split; try done; try (rewrite length_app; simpl; lia);
        intros; congruence.
Qed.

End registry_extras.

(** ** Races between registrations and resolves *)

Section race_facts.
Context `{Collaborators}.

(** The thread has registered a channel under [n]. *)
Definition won (n : string) (t : thread) : bool :=
  match t with
  | registerDone n' (Some _, _) => bool_decide (n' = n)
  | _ => false
  end.

Definition wins (n : string) (ts : list thread) : nat :=
  length (filter (fun t => won n t = true) ts).

(** Every successful registration holds the channel the registry has for
    its name. *)
Definition registeredAgree (ts : list thread) (r : Router) : Prop :=
  forall i n c e,
    ts !! i = Some (registerDone n (Some c, e)) -> gossipChannels r !! n = Some c.

(** The invariant of a run from [r0]: each name is filled at most once,
    by one registration or by one surrogate. *)
Definition raceInv (r0 : Router) (cfg : list thread * Router) : Prop :=
  gossipChannels r0 ⊆ gossipChannels cfg.2 /\
  allocated cfg.2 /\
  registeredAgree cfg.1 cfg.2 /\
  forall n, wins n cfg.1 <= 0 + filledSince r0 cfg.2 n /\
            wins n cfg.1 + length (surrogatesFor n cfg.2) <=
              length (surrogatesFor n r0) + filledSince r0 cfg.2 n.

Lemma gossipChannel_Locked (r : Router) n :
  gossipChannel n r = gossipChannelLocked n r.
Proof.
  destruct (gossipChannels r !! n) as [c|] eqn:Hn.
  - by rewrite (gossipChannel_known _ _ _ Hn), (gossipChannelLocked_known _ _ _ Hn).
  - by rewrite (gossipChannel_unknown _ _ Hn), (gossipChannelLocked_unknown _ _ Hn).
Qed.

Lemma wins_insert n ts i t t' :
  ts !! i = Some t -> won n t = false ->
  wins n (<[i := t']> ts) = wins n ts + (if won n t' then 1 else 0).
Proof.
  intros Hi Ht. unfold wins.
  rewrite insert_take_drop by (by eapply lookup_lt_Some).
  rewrite <- (take_drop_middle ts i t Hi) at 3.
  rewrite !filter_app, !filter_cons, !length_app.
  destruct (decide (won n t = true)) as [Hw|_]; [congruence|].
  destruct (decide (won n t' = true)) as [->|Hw]; simpl; [lia|].
  destruct (won n t'); [done|lia].
Qed.

Lemma wins_not_started n ts : Forall notStarted ts -> wins n ts = 0.
Proof.
  unfold wins. induction 1 as [|t ts Ht _ IH]; [done|].
  rewrite filter_cons. destruct (decide _) as [Hw|_]; [|done].
  by destruct t.
Qed.

Lemma wins_two n ts i j ti tj :
  i <> j -> ts !! i = Some ti -> ts !! j = Some tj ->
  won n ti = true -> won n tj = true -> 2 <= wins n ts.
Proof.
  unfold wins. revert i j. induction ts as [|t ts IH]; intros i j Hij Hi Hj Hwi Hwj; [done|].
  assert (forall k tk, ts !! k = Some tk -> won n tk = true ->
                       1 <= length (filter (fun t => won n t = true) ts)) as Hone.
  { intros k tk Hk Hw.
    assert (tk ∈ filter (fun t => won n t = true) ts) as Hin
      by (apply list_elem_of_filter; split; [done|by eapply list_elem_of_lookup_2]).
    destruct (filter _ ts); [by apply not_elem_of_nil in Hin|simpl; lia]. }
  rewrite filter_cons.
  destruct i as [|i], j as [|j]; simpl in *; try done.
  - injection Hi as ->. rewrite decide_True by done. simpl.
    specialize (Hone _ _ Hj Hwj). lia.
  - injection Hj as ->. rewrite decide_True by done. simpl.
    specialize (Hone _ _ Hi Hwi). lia.
  - assert (i <> j) as Hij' by congruence.
    specialize (IH _ _ Hij' Hi Hj Hwi Hwj).
    destruct (decide _); simpl; lia.
Qed.

(** What one step of one thread adds for the name [n]: a registration or a
    surrogate, and only when the name gets its channel. *)
Lemma threadStep_fills t m (r r' : Router) t' n :
  threadStep t = Some m -> m r = (t', r') -> allocated r ->
  won n t = false /\
  (if won n t' then 1 else 0) <= filledSince r r' n /\
  (if won n t' then 1 else 0) + length (surrogatesFor n r') <=
    length (surrogatesFor n r) + filledSince r r' n.
Proof.
  intros Hm Hrun Halloc.
  destruct t as [n0|n0|n0 c|n0 g|n0 res]; simpl in Hm; try done;
    injection Hm as <-; unfold bind, ret in Hrun; (split; [done|]).
  - unfold gossipChannelRLocked, gets in Hrun. injection Hrun as <- <-.
    destruct (gossipChannels r !! n0); simpl; lia.
  - destruct (gossipChannelLocked n0 r) as [c r1] eqn:Hlocked.
    injection Hrun as <- <-. simpl. split; [lia|].
    pose proof (grows_gossipChannelLocked r n0) as (_ & _ & Hcount).
    rewrite Hlocked in Hcount. by apply Hcount.
  - destruct (gossipChannels r !! n0) as [first|] eqn:Hn.
    + rewrite (NewGossip_duplicate _ _ _ _ Hn) in Hrun. injection Hrun as <- <-.
      simpl. rewrite surrogatesFor_more' by done. lia.
    + rewrite (NewGossip_fresh _ _ _ Hn) in Hrun. injection Hrun as <- <-.
      simpl. rewrite surrogatesFor_more by done.
      case_bool_decide as Hnn; [subst n0|lia].
      unfold filledSince. simpl. rewrite Hn, lookup_insert_eq. lia.
Qed.

Lemma threadStep_registered t m (r r' : Router) t' :
  threadStep t = Some m -> m r = (t', r') ->
  forall n c e, t' = registerDone n (Some c, e) -> gossipChannels r' !! n = Some c.
Proof.
  intros Hm Hrun n c e ->.
  destruct t as [n0|n0|n0 c0|n0 g|n0 res]; simpl in Hm; try done;
    injection Hm as <-; unfold bind, ret in Hrun.
  - unfold gossipChannelRLocked, gets in Hrun.
    by destruct (gossipChannels r !! n0).
  - by destruct (gossipChannelLocked n0 r).
  - destruct (gossipChannels r !! n0) as [first|] eqn:Hn.
    + by rewrite (NewGossip_duplicate _ _ _ _ Hn) in Hrun.
    + rewrite (NewGossip_fresh _ _ _ Hn) in Hrun. simplify_eq.
      simpl. apply lookup_insert_eq.
Qed.

Lemma step_raceInv (r0 : Router) cfg cfg' :
  raceInv r0 cfg -> step cfg cfg' -> raceInv r0 cfg'.
Proof.
  intros (Hsub & Halloc & Hagree & Hcount) Hstep.
  destruct Hstep as [i t t' m ts r r' Hi Hm Hrun]. simpl in *.
  destruct (threadStep_grows _ _ _ _ _ Hm Hrun) as [(Hg1 & Hg2 & _) _].
  repeat split; simpl.
  - by etrans.
  - by apply Hg2.
  - intros j n c e Hj.
    apply list_lookup_insert_Some in Hj as [(-> & -> & _)|[_ Hj]].
    + by eapply threadStep_registered.
    + eapply lookup_weaken; [by eapply Hagree | done].
  - destruct (threadStep_fills _ _ _ _ _ n Hm Hrun Halloc) as (Hnot & Hwin & _).
    rewrite (wins_insert _ _ _ _ _ Hi Hnot).
    refine (filledSince_trans r0 r r' n 0 (wins n ts) _ Hsub Hg1 _ _);
      [apply Hcount | lia].
  - destruct (threadStep_fills _ _ _ _ _ n Hm Hrun Halloc) as (Hnot & _ & Hfill).
    rewrite (wins_insert _ _ _ _ _ Hi Hnot).
    eapply filledSince_trans; [exact Hsub | exact Hg1 | apply Hcount | lia].
Qed.

Lemma steps_raceInv (r0 : Router) cfg cfg' :
  raceInv r0 cfg -> rtc step cfg cfg' -> raceInv r0 cfg'.
Proof. intros Hinv Hsteps. induction Hsteps; eauto using step_raceInv. Qed.

Lemma raceInv_start (r0 : Router) ts :
  allocated r0 -> Forall notStarted ts -> raceInv r0 (ts, r0).
Proof.
  intros Halloc Hts. repeat split; simpl; try done.
  - intros i n c e Hi. by apply (Forall_lookup_1 _ _ _ _ Hts) in Hi.
  - rewrite wins_not_started by done. lia.
  - rewrite wins_not_started by done. lia.
Qed.

(** One step of one thread keeps the registry well-formed. *)
Lemma step_registryWf cfg cfg' :
  step cfg cfg' -> registryWf cfg.2 -> registryWf cfg'.2 /\ keeps cfg.2 cfg'.2.
Proof.
  intros [i t t' m ts r r' Hi Hm Hrun] Hwf. simpl in *.
  destruct t as [n0|n0|n0 c0|n0 g|n0 res]; simpl in Hm; try done;
    injection Hm as <-; unfold bind, ret in Hrun.
  - unfold gossipChannelRLocked, gets in Hrun. injection Hrun as _ <-.
    split; [done|apply keeps_refl].
  - rewrite <- gossipChannel_Locked in Hrun.
    destruct (gossipChannel n0 r) as [c r1] eqn:Hres. injection Hrun as _ <-.
    pose proof (registryWf_gossipChannel r n0 Hwf) as Hwf'.
    pose proof (keeps_gossipChannel r n0) as Hk.
    by rewrite Hres in Hwf', Hk.
  - destruct (NewGossip n0 g r) as [res r1] eqn:Hres. injection Hrun as _ <-.
    pose proof (registryWf_NewGossip r n0 g Hwf) as Hwf'.
    pose proof (keeps_NewGossip r n0 g) as Hk.
    by rewrite Hres in Hwf', Hk.
Qed.

(** X7: in every interleaving of resolves and registrations, a well-formed
    registry stays well-formed (each name points to an allocated channel
    carrying that name, so no two names share a channel), no name loses or
    changes its channel, and no channel object is changed. *)
Theorem interleaving_keeps_registry (ts ts' : list thread) (r r' : Router) :
  registryWf r ->
  rtc step (ts, r) (ts', r') ->
  registryWf r' /\
  (forall n1 n2 c, gossipChannels r' !! n1 = Some c ->
                   gossipChannels r' !! n2 = Some c -> n1 = n2) /\
  (forall n c, gossipChannels r !! n = Some c -> gossipChannels r' !! n = Some c) /\
  (forall c obj, channelObjs r !! c = Some obj -> channelObjs r' !! c = Some obj).
Proof.
  intros Hwf Hsteps.
  assert (registryWf r' /\ keeps r r') as [Hwf' [Hsub Hobjs]].
  { remember (ts, r) as cfg eqn:Ecfg. remember (ts', r') as cfg' eqn:Ecfg'.
    revert ts r Hwf Ecfg. induction Hsteps as [cfg|cfg cfg1 cfg2 Hstep _ IH];
      intros ts r Hwf Ecfg; subst.
    - injection Ecfg as -> ->. split; [done|apply keeps_refl].
    - destruct cfg1 as [ts1 r1].
      destruct (step_registryWf _ _ Hstep Hwf) as [Hwf1 Hk1]. simpl in *.
      destruct (IH eq_refl ts1 r1 Hwf1 eq_refl) as [Hwf2 Hk2].
      split; [done|by eapply keeps_trans]. }
  split; [done|]. split; [|split; [|done]].
  - intros n1 n2 c. by apply registryWf_injective.
  - intros n c Hc. by eapply lookup_weaken.
Qed.

(** X8: when goroutines race from a state in which none has started, at
    most one [NewGossip] per name succeeds; the channel it returns is the
    one the registry holds and the one every finished resolve of that name
    returns; and no surrogate is created for a name that a registration
    won. *)
Theorem registration_race (ts0 ts : list thread) (r0 r : Router) (n : string) :
  allocated r0 ->
  Forall notStarted ts0 ->
  rtc step (ts0, r0) (ts, r) ->
  (forall i j c1 e1 c2 e2,
     ts !! i = Some (registerDone n (Some c1, e1)) ->
     ts !! j = Some (registerDone n (Some c2, e2)) -> i = j) /\
  (forall i c e,
     ts !! i = Some (registerDone n (Some c, e)) ->
     gossipChannels r !! n = Some c /\
     length (surrogatesFor n r) <= length (surrogatesFor n r0) /\
     forall j c', ts !! j = Some (resolveDone n c') -> c' = c).
Proof.
  intros Halloc Hts Hsteps.
  destruct (steps_raceInv r0 _ _ (raceInv_start r0 ts0 Halloc Hts) Hsteps)
    as (_ & _ & Hreg & Hcount).
  destruct (steps_runInv r0 _ _ (runInv_start r0 ts0 Halloc Hts) Hsteps)
    as (_ & _ & Hres & _).
  simpl in *. destruct (Hcount n) as [Hwins Hfill].
  assert (filledSince r0 r n <= 1) as Hfilled.
  { unfold filledSince. destruct (gossipChannels r0 !! n), (gossipChannels r !! n); lia. }
  split.
  - intros i j c1 e1 c2 e2 Hi Hj.
    destruct (decide (i = j)) as [|Hij]; [done|exfalso].
    assert (2 <= wins n ts); [|lia].
    eapply (wins_two n ts i j); eauto; simpl; by rewrite bool_decide_eq_true.
  - intros i c e Hi. split; [by eapply Hreg|]. split.
    + assert (1 <= wins n ts); [|lia].
      unfold wins.
      assert (registerDone n (Some c, e) ∈ filter (fun t => won n t = true) ts) as Hin.
      { apply list_elem_of_filter. split; [|by eapply list_elem_of_lookup_2].
        simpl. by rewrite bool_decide_eq_true. }
      destruct (filter _ ts); [by apply not_elem_of_nil in Hin|simpl; lia].
    + intros j c' Hj. apply Hres in Hj. apply Hreg in Hi. congruence.
Qed.

End race_facts.

(** ** The set of channels and periodic gossip *)

Section emission.
Context `{Collaborators}.

(** [Gossip()] of a Gossiper other than the router itself (the default
    surrogate, or an application's), implemented outside router.go; [None]
    is nil, nothing pending. *)
Variable gossiperGossip : Gossiper -> option GossipData.

(** A [Connection], as [sendAllGossipDown] is given one. *)
Variable Connection : Type.

(** [Router.gossipChannelSet]: the loop inserts the channel of every entry
    of the registry into a fresh set. *)
Definition gossipChannelSet : M (gset chanptr) :=
  gets (fun r =>
          map_fold (fun _ channel channels => {[channel]} ∪ channels)
                   (∅ : gset chanptr) (gossipChannels r)).

(** [channel.gossiper.Gossip()]: the router's own [Gossip] on a channel
    bound to the router, the Gossiper's otherwise. *)
Definition channelGossip (obj : gossipChannelObj) : M (option GossipData) :=
  match gossiper obj with
  | routerGossiper => Gossip
  | g => ret (gossiperGossip g)
  end.

(** The sends a channel is asked to make. *)
Inductive sendCall :=
  | callSend (channel : chanptr) (data : GossipData)
      (* channel.Send(gossip) *)
  | callSendDown (channel : chanptr) (conn : Connection) (data : GossipData).
      (* channel.SendDown(conn, gossip) *)

(** One turn of the loop of [sendAllGossip] for [channel]: the send made, if
    any.  A channel of the registry is an allocated object (see
    [registryWf]), so the lookup of the object does not fail there. *)
Definition sendGossipOf (r : Router) (channel : chanptr) : option sendCall :=
  match channelObjs r !! channel with
  | Some obj =>
      match fst (channelGossip obj r) with
      | Some gossip => Some (callSend channel gossip)
      | None => None
      end
  | None => None
  end.

(** [Router.sendAllGossip]: the sends made, over the channels of
    [gossipChannelSet] in the order the range visits them. *)
Definition sendAllGossip (r : Router) : list sendCall :=
  omap (sendGossipOf r) (elements (fst (gossipChannelSet r))).

Definition sendGossipDownOf (conn : Connection) (r : Router) (channel : chanptr) : option sendCall :=
  match channelObjs r !! channel with
  | Some obj =>
      match fst (channelGossip obj r) with
      | Some gossip => Some (callSendDown channel conn gossip)
      | None => None
      end
  | None => None
  end.

(** [Router.sendAllGossipDown]. *)
Definition sendAllGossipDown (conn : Connection) (r : Router) : list sendCall :=
  omap (sendGossipDownOf conn r) (elements (fst (gossipChannelSet r))).

Lemma gossipChannelSet_spec (m : gmap string chanptr) :
  let S := map_fold (fun _ channel channels => {[channel]} ∪ channels) (∅ : gset chanptr) m in
  (forall c, c ∈ S <-> exists n, m !! n = Some c) /\
  ((forall n1 n2 c, m !! n1 = Some c -> m !! n2 = Some c -> n1 = n2) -> size S = size m).
Proof.
  apply (map_fold_weak_ind
           (fun (S : gset chanptr) (m : gmap string chanptr) =>
              (forall c, c ∈ S <-> exists n, m !! n = Some c) /\
              ((forall n1 n2 c, m !! n1 = Some c -> m !! n2 = Some c -> n1 = n2) ->
               size S = size m))).
  - split.
    + intros c. split; [by intros ?%not_elem_of_empty|].
      intros [n Hn]. by rewrite lookup_empty in Hn.
    + intros _. by rewrite size_empty, map_size_empty.
  - intros i x m' S Hi [Hmem Hsize]. split.
    + intros c. rewrite elem_of_union, elem_of_singleton, Hmem. split.
      * intros [->|[n Hn]].
        -- exists i. apply lookup_insert_eq.
        -- exists n. rewrite lookup_insert_ne; [done|]. intros ->. congruence.
      * intros [n Hn]. apply lookup_insert_Some in Hn as [[_ ->]|[_ Hn]]; eauto.
    + intros Hinj.
      assert (x ∉ S) as Hx.
      { intros [n Hn]%Hmem.
        assert (i = n) as ->; [|congruence].
        apply (Hinj i n x); [apply lookup_insert_eq|].
        rewrite lookup_insert_ne; [done|]. intros ->. congruence. }
      rewrite size_union by (by apply disjoint_singleton_l).
      rewrite size_singleton, map_size_insert_None by done.
      f_equal. apply Hsize. intros n1 n2 c H1 H2.
      apply (Hinj n1 n2 c); rewrite lookup_insert_ne; try done; intros ->; congruence.
Qed.

(** X9: [gossipChannelSet] contains exactly the channels the registry
    holds and leaves the router as it is; in a well-formed registry it has
    one channel per registered name. *)
Theorem gossipChannelSet_channels (r : Router) :
  snd (gossipChannelSet r) = r /\
  (forall c, c ∈ fst (gossipChannelSet r) <-> exists n, gossipChannels r !! n = Some c) /\
  (registryWf r -> size (fst (gossipChannelSet r)) = size (gossipChannels r)).
Proof.
  split; [done|]. simpl.
  destruct (gossipChannelSet_spec (gossipChannels r)) as [Hmem Hsize].
  split; [exact Hmem|]. intros Hwf. apply Hsize.
  intros n1 n2 c. by apply registryWf_injective.
Qed.

Lemma sendGossipOf_channel (r : Router) channel s :
  sendGossipOf r channel = Some s -> exists data, s = callSend channel data.
Proof.
  unfold sendGossipOf. destruct (channelObjs r !! channel) as [obj|]; [|done].
  destruct (fst (channelGossip obj r)) as [data|]; [|done].
  intros [= <-]. by eexists.
Qed.

Lemma sendGossipDownOf_channel conn (r : Router) channel s :
  sendGossipDownOf conn r channel = Some s -> exists data, s = callSendDown channel conn data.
Proof.
  unfold sendGossipDownOf. destruct (channelObjs r !! channel) as [obj|]; [|done].
  destruct (fst (channelGossip obj r)) as [data|]; [|done].
  intros [= <-]. by eexists.
Qed.

(** Mapping distinct channels to their sends gives distinct sends. *)
Lemma NoDup_omap_sends (f : chanptr -> option sendCall) (l : list chanptr) :
  (forall c1 c2 s, f c1 = Some s -> f c2 = Some s -> c1 = c2) ->
  NoDup l -> NoDup (omap f l).
Proof.
  intros Hinj. induction 1 as [|c l Hc Hl IH]; simpl; [constructor|].
  destruct (f c) as [s|] eqn:Hfc; [|done].
  constructor; [|done].
  intros (c' & Hin & Hfc')%list_elem_of_omap.
  by rewrite (Hinj _ _ _ Hfc Hfc') in Hc.
Qed.

(** X10: [sendAllGossip] asks a channel to send exactly when the channel
    is in the registry and its Gossiper has gossip pending, what it sends
    being that gossip; no channel is asked twice; a channel bound to the
    router itself is always asked, with the full set of names of Peers; and
    [sendAllGossipDown] makes the same sends down the connection. *)
Theorem sendAllGossip_sends (r : Router) (conn : Connection) :
  (forall channel data,
     callSend channel data ∈ sendAllGossip r <->
     exists n obj,
       gossipChannels r !! n = Some channel /\
       channelObjs r !! channel = Some obj /\
       fst (channelGossip obj r) = Some data) /\
  NoDup (sendAllGossip r) /\
  (forall n channel,
     gossipChannels r !! n = Some channel ->
     gossiper <$> channelObjs r !! channel = Some routerGossiper ->
     callSend channel (topologyData (mkTopology (Peers r) (names (peersObj r))))
       ∈ sendAllGossip r) /\
  (forall channel data,
     callSendDown channel conn data ∈ sendAllGossipDown conn r <->
     callSend channel data ∈ sendAllGossip r) /\
  NoDup (sendAllGossipDown conn r).
Proof.
  destruct (gossipChannelSet_spec (gossipChannels r)) as [Hset _].
  change (map_fold _ _ _) with (fst (gossipChannelSet r)) in Hset.
  assert (forall channel data,
            callSend channel data ∈ sendAllGossip r <->
            exists n obj,
              gossipChannels r !! n = Some channel /\
              channelObjs r !! channel = Some obj /\
              fst (channelGossip obj r) = Some data) as Hsend.
  { intros channel data. unfold sendAllGossip. rewrite list_elem_of_omap. split.
    - intros (c & Hc%elem_of_elements%Hset & Hs). destruct Hc as [n Hn].
      unfold sendGossipOf in Hs.
      destruct (channelObjs r !! c) as [obj|] eqn:Hobj; [|done].
      destruct (fst (channelGossip obj r)) as [d|] eqn:Hd; [|done].
      injection Hs as <- <-. by exists n, obj.
    - intros (n & obj & Hn & Hobj & Hd). exists channel. split.
      + apply elem_of_elements, Hset. by exists n.
      + unfold sendGossipOf. by rewrite Hobj, Hd. }
  assert (forall channel data,
            callSendDown channel conn data ∈ sendAllGossipDown conn r <->
            callSend channel data ∈ sendAllGossip r) as Hdown.
  { intros channel data. unfold sendAllGossipDown, sendAllGossip.
    rewrite !list_elem_of_omap. split.
    - intros (c & Hc & Hs). exists c. split; [done|].
      unfold sendGossipDownOf in Hs. unfold sendGossipOf.
      destruct (channelObjs r !! c) as [obj|]; [|done].
      destruct (fst (channelGossip obj r)) as [d|]; [|done].
      by injection Hs as <- <-.
    - intros (c & Hc & Hs). exists c. split; [done|].
      unfold sendGossipOf in Hs. unfold sendGossipDownOf.
      destruct (channelObjs r !! c) as [obj|]; [|done].
      destruct (fst (channelGossip obj r)) as [d|]; [|done].
      by injection Hs as <- <-. }
  split; [exact Hsend|]. split; [|split; [|split; [exact Hdown|]]].
  - apply NoDup_omap_sends; [|apply NoDup_elements].
    intros c1 c2 s [d1 ->]%sendGossipOf_channel [d2 [= -> _]]%sendGossipOf_channel. done.
  - intros n channel Hn Hg. apply Hsend.
    destruct (channelObjs r !! channel) as [obj|] eqn:Hobj; [|done].
    exists n, obj. split; [done|]. split; [done|].
    injection Hg as Hg. unfold channelGossip. by rewrite Hg.
  - apply NoDup_omap_sends; [|apply NoDup_elements].
    intros c1 c2 s [d1 ->]%sendGossipDownOf_channel [d2 [= -> _]]%sendGossipDownOf_channel.
    done.
Qed.

End emission.

(** ** The topology callbacks on any payload *)

Section topology_more.
Context `{Collaborators}.

Lemma OnGossipBroadcast_ok (r : Router) sender upd origUpdate newUpdate p :
  applyUpdate (peersObj r) upd = ((origUpdate, newUpdate, None), p) ->
  OnGossipBroadcast sender upd r =
    ((if decide (origUpdate = ∅) then None
      else Some (topologyData (mkTopology (Peers r) origUpdate)), None),
     setCalls (calls r ++ triggered newUpdate) (setPeersObj p r)).
Proof.
  intros Happ. unfold OnGossipBroadcast, bind.
  rewrite (applyTopologyUpdate_ok _ _ _ _ _ Happ).
  destruct (decide (is_Some None \/ size origUpdate = 0)) as [Hg|Hg];
    destruct (decide (origUpdate = ∅)) as [He|Hne]; simpl; try done;
    rewrite relay_guard in Hg; done.
Qed.

Lemma OnGossip_ok (r : Router) upd origUpdate newUpdate p :
  applyUpdate (peersObj r) upd = ((origUpdate, newUpdate, None), p) ->
  OnGossip upd r =
    ((if decide (newUpdate = ∅) then None
      else Some (topologyData (mkTopology (Peers r) newUpdate)), None),
     setCalls (calls r ++ triggered newUpdate) (setPeersObj p r)).
Proof.
  intros Happ. unfold OnGossip, bind.
  rewrite (applyTopologyUpdate_ok _ _ _ _ _ Happ).
  destruct (decide (is_Some None \/ size newUpdate = 0)) as [Hg|Hg];
    destruct (decide (newUpdate = ∅)) as [He|Hne]; simpl; try done;
    rewrite relay_guard in Hg; done.
Qed.

Lemma OnGossipBroadcast_err (r : Router) sender upd origUpdate newUpdate e p :
  applyUpdate (peersObj r) upd = ((origUpdate, newUpdate, Some e), p) ->
  OnGossipBroadcast sender upd r = ((None, Some e), setPeersObj p r).
Proof.
  intros Happ. unfold OnGossipBroadcast, bind.
  rewrite (applyTopologyUpdate_err _ _ _ _ _ _ Happ).
  rewrite decide_True; [done|]. left. by eexists.
Qed.

Lemma OnGossip_err (r : Router) upd origUpdate newUpdate e p :
  applyUpdate (peersObj r) upd = ((origUpdate, newUpdate, Some e), p) ->
  OnGossip upd r = ((None, Some e), setPeersObj p r).
Proof.
  intros Happ. unfold OnGossip, bind.
  rewrite (applyTopologyUpdate_err _ _ _ _ _ _ Happ).
  rewrite decide_True; [done|]. left. by eexists.
Qed.

(** X11: when [Peers.applyUpdate] fails, both topology callbacks return its
    error with nothing to relay, whatever sets came back with the error, and
    make no call: no refresh and no recalculation. *)
Theorem topology_failed_update (r : Router) sender upd origUpdate newUpdate e p :
  applyUpdate (peersObj r) upd = ((origUpdate, newUpdate, Some e), p) ->
  fst (OnGossipBroadcast sender upd r) = (None, Some e) /\
  fst (OnGossip upd r) = (None, Some e) /\
  calls (snd (OnGossipBroadcast sender upd r)) = calls r /\
  calls (snd (OnGossip upd r)) = calls r /\
  peersObj (snd (OnGossip upd r)) = p.
Proof.
  intros Happ.
  rewrite (OnGossipBroadcast_err _ sender _ _ _ _ _ Happ).
  by rewrite (OnGossip_err _ _ _ _ _ _ Happ).
Qed.

(** X12: on every payload, [OnGossipBroadcast] and [OnGossip] leave the
    same router behind and report the same error; they change nothing but
    the Peers object, which becomes the one [Peers.applyUpdate] left, and
    the calls made: the router they leave is the one they were given with
    those two replaced, so the registry, the channel objects, the Peers
    reference, the Gossiper maker, [topologyGossip] and the accept limiter
    are as before; and the calls they add are either none or one refresh
    followed by one recalculation. *)
Theorem topology_callbacks_same_effect (r : Router) (sender : PeerName) (upd : list byte) :
  let r1 := snd (OnGossipBroadcast sender upd r) in
  r1 = snd (OnGossip upd r) /\
  snd (fst (OnGossipBroadcast sender upd r)) = snd (fst (OnGossip upd r)) /\
  r1 = setCalls (calls r1) (setPeersObj (peersObj r1) r) /\
  peersObj r1 = snd (applyUpdate (peersObj r) upd) /\
  gossipChannels r1 = gossipChannels r /\
  channelObjs r1 = channelObjs r /\
  Peers r1 = Peers r /\
  GossiperMaker r1 = GossiperMaker r /\
  topologyGossip r1 = topologyGossip r /\
  acceptLimiter r1 = acceptLimiter r /\
  (calls r1 = calls r \/ calls r1 = calls r ++ [callRefresh; callRecalculate]).
Proof.
  intros r1. subst r1.
  destruct (applyUpdate (peersObj r) upd) as [[[o nw] [e|]] p] eqn:Happ.
  - rewrite (OnGossipBroadcast_err _ sender _ _ _ _ _ Happ).
    rewrite (OnGossip_err _ _ _ _ _ _ Happ). simpl. repeat split; by left.
  - rewrite (OnGossipBroadcast_ok _ sender _ _ _ _ Happ).
    rewrite (OnGossip_ok _ _ _ _ _ Happ). simpl. repeat split.
    unfold triggered. destruct (decide (nw = ∅)); [left|right]; [|done].
    by rewrite app_nil_r.
Qed.

(** X13: neither callback ever returns both gossip and an error; the gossip
    either returns is topology data that refers to the router's Peers and
    names at least one peer; and [OnGossip] returns gossip exactly when it
    refreshed and recalculated. *)
Theorem topology_relay_shape (r : Router) (sender : PeerName) (upd : list byte) :
  (forall d, fst (fst (OnGossipBroadcast sender upd r)) = Some d ->
             snd (fst (OnGossipBroadcast sender upd r)) = None /\
             exists X, d = topologyData (mkTopology (Peers r) X) /\ X <> ∅) /\
  (forall d, fst (fst (OnGossip upd r)) = Some d ->
             snd (fst (OnGossip upd r)) = None /\
             exists X, d = topologyData (mkTopology (Peers r) X) /\ X <> ∅) /\
  (is_Some (fst (fst (OnGossip upd r))) <->
   calls (snd (OnGossip upd r)) = calls r ++ [callRefresh; callRecalculate]).
Proof.
  destruct (applyUpdate (peersObj r) upd) as [[[o nw] [e|]] p] eqn:Happ.
  - rewrite (OnGossipBroadcast_err _ sender _ _ _ _ _ Happ).
    rewrite (OnGossip_err _ _ _ _ _ _ Happ). simpl.
    split; [done|]. split; [done|]. split.
    + by intros [d Hd].
    + intros Heq. apply (f_equal length) in Heq. rewrite length_app in Heq.
      simpl in Heq. lia.
  - rewrite (OnGossipBroadcast_ok _ sender _ _ _ _ Happ).
    rewrite (OnGossip_ok _ _ _ _ _ Happ). simpl.
    split; [|split].
    + intros d. destruct (decide (o = ∅)); [done|]. intros [= <-]. eauto.
    + intros d. destruct (decide (nw = ∅)); [done|]. intros [= <-]. eauto.
    + unfold triggered. destruct (decide (nw = ∅)); simpl; split.
      * intros [d Hd]. done.
      * intros Heq. apply (f_equal length) in Heq. rewrite !length_app in Heq.
        simpl in Heq. lia.
      * done.
      * intros _. by eexists.
Qed.

End topology_more.

(** ** Merge in any order *)

Section merge_more.

(** [topologyGossipData.Merge] with the two ranges visiting the names in the
    orders [order1] and [order2]: the order in which a range visits a map is
    not fixed. *)
Definition MergeIn (order1 order2 : list PeerName) (d : topologyGossipData)
    (other : GossipData) : option GossipData :=
  let names : peerNameSet := ∅ in
  let names := foldl (fun acc name => {[name]} ∪ acc) names order1 in
  match other with
  | topologyData o =>
      let names := foldl (fun acc name => {[name]} ∪ acc) names order2 in
      Some (topologyData (mkTopology (peers d) names))
  | foreignData _ => None
  end.

(** [a.Merge(b)] on [GossipData], when [a] is topology data. *)
Definition mergeData (a b : GossipData) : option GossipData :=
  match a with
  | topologyData d => Merge d b
  | foreignData _ => None
  end.

Lemma list_to_set_perm_elements (l : list N) (X : peerNameSet) :
  l ≡ₚ elements X -> list_to_set l = X.
Proof.
  intros Hl. apply set_eq. intros x.
  by rewrite elem_of_list_to_set, Hl, elem_of_elements.
Qed.

(** X14: the result of [Merge] does not depend on the order in which the
    two ranges visit the names. *)
Theorem Merge_any_order (order1 order2 : list PeerName) (A B : topologyGossipData) :
  order1 ≡ₚ elements (update A) ->
  order2 ≡ₚ elements (update B) ->
  MergeIn order1 order2 A (topologyData B) = Merge A (topologyData B).
Proof.
  intros H1 H2. rewrite Merge_topology. unfold MergeIn.
  rewrite !insert_names.
  rewrite (list_to_set_perm_elements _ _ H1), (list_to_set_perm_elements _ _ H2).
  do 3 f_equal. by rewrite union_empty_r_L, (comm_L (∪)).
Qed.

(** X15: [Merge] is associative on topology data, the Peers reference of
    the leftmost operand included: merging [A] with [B] and the result with
    [C] gives what merging [A] with the merge of [B] and [C] gives. *)
Theorem Merge_associative (A B C : topologyGossipData) :
  (ab ← Merge A (topologyData B); mergeData ab (topologyData C)) =
  (bc ← Merge B (topologyData C); Merge A bc).
Proof.
  rewrite (Merge_topology A B), (Merge_topology B C).
  change (Merge (mkTopology (peers A) (update A ∪ update B)) (topologyData C) =
          Merge A (topologyData (mkTopology (peers B) (update B ∪ update C)))).
  rewrite !Merge_topology. simpl.
  do 3 f_equal. by rewrite (assoc_L (∪)).
Qed.

End merge_more.

(** ** Configuration and trust *)

Section admission.

(** An IP address and an IP network ([net.IP], [*net.IPNet]), with the two
    operations of package net that [trusts] uses: the IP of
    [net.ResolveTCPAddr("tcp", addr)] or its error, and the method
    [Contains] of an IP network. *)
Variable IP : Type.
Variable IPNet : Type.
Variable ResolveTCPAddr : string -> IP + error.
Variable Contains : IPNet -> IP -> bool.

(** [type Config struct]; a nil [Password] and a nil [GossipInterval] are
    [None], durations count nanoseconds. *)
Record Config := mkConfig {
  Host : string;
  Port : Z;
  Password : option (list byte);
  ConnLimit : Z;
  ProtocolMinVersion : byte;
  PeerDiscovery : bool;
  TrustedSubnets : list IPNet;
  GossipInterval : option Z;
  SingleHopTopolgy : bool
}.

Definition defaultGossipInterval : Z := 30 * (1000 * Millisecond).

(** [Router.usingPassword]. *)
Definition usingPassword (config : Config) : bool :=
  match Password config with
  | Some _ => true
  | None => false
  end.

(** [Router.gossipInterval]. *)
Definition gossipInterval (config : Config) : Z :=
  match GossipInterval config with
  | Some interval => interval
  | None => defaultGossipInterval
  end.

(** What [trusts] logs. *)
Inductive logLine :=
  | logUnableToParse (err : error).
      (* "Unable to parse remote TCP addr: %s" *)

(** The loop of [trusts]: the first trusted subnet that contains the
    address ends it with [true]. *)
Fixpoint containedInAny (subnets : list IPNet) (ip : IP) : bool :=
  match subnets with
  | [] => false
  | trustedSubnet :: rest =>
      if Contains trustedSubnet ip then true else containedInAny rest ip
  end.

(** [Router.trusts], on [remote.remoteTCPAddr]: the answer and the lines
    logged. *)
Definition trusts (config : Config) (remoteTCPAddr : string) : bool * list logLine :=
  match ResolveTCPAddr remoteTCPAddr with
  | inl ip => (containedInAny (TrustedSubnets config) ip, [])
  | inr err => (false, [logUnableToParse err])
  end.

Lemma containedInAny_true (subnets : list IPNet) (ip : IP) :
  containedInAny subnets ip = true <->
  exists trustedSubnet, trustedSubnet ∈ subnets /\ Contains trustedSubnet ip = true.
Proof.
  induction subnets as [|s rest IH]; simpl.
  - split; [done|]. by intros (s & Hs%not_elem_of_nil & _).
  - destruct (Contains s ip) eqn:Hs.
    + split; [|done]. intros _. exists s. split; [apply list_elem_of_here|done].
    + rewrite IH. split.
      * intros (s' & Hin & Hc). exists s'. split; [by apply list_elem_of_further|done].
      * intros (s' & Hin & Hc). apply elem_of_cons in Hin as [->|Hin]; [congruence|eauto].
Qed.

(** X16: [trusts] answers true exactly when the remote address resolves and
    one of the trusted subnets contains its IP; an address that does not
    resolve is not trusted and the failure is logged, nothing being logged
    otherwise; so with no trusted subnet nothing is trusted, and adding
    subnets never withdraws trust. *)
Theorem trusts_iff_contained (config : Config) (remoteTCPAddr : string) :
  (fst (trusts config remoteTCPAddr) = true <->
   exists ip trustedSubnet,
     ResolveTCPAddr remoteTCPAddr = inl ip /\
     trustedSubnet ∈ TrustedSubnets config /\
     Contains trustedSubnet ip = true) /\
  (forall err, ResolveTCPAddr remoteTCPAddr = inr err ->
               trusts config remoteTCPAddr = (false, [logUnableToParse err])) /\
  (forall ip, ResolveTCPAddr remoteTCPAddr = inl ip ->
              snd (trusts config remoteTCPAddr) = []) /\
  (TrustedSubnets config = [] -> fst (trusts config remoteTCPAddr) = false) /\
  (forall config' : Config,
     TrustedSubnets config ⊆ TrustedSubnets config' ->
     fst (trusts config remoteTCPAddr) = true ->
     fst (trusts config' remoteTCPAddr) = true).
Proof.
  assert (forall cfg : Config,
            fst (trusts cfg remoteTCPAddr) = true <->
            exists ip trustedSubnet,
              ResolveTCPAddr remoteTCPAddr = inl ip /\
              trustedSubnet ∈ TrustedSubnets cfg /\
              Contains trustedSubnet ip = true) as Hiff.
  { intros cfg. unfold trusts.
    destruct (ResolveTCPAddr remoteTCPAddr) as [ip|err]; simpl.
    - rewrite containedInAny_true. split.
      + intros (s & Hin & Hc). by exists ip, s.
      + intros (ip' & s & [= <-] & Hin & Hc). by exists s.
    - split; [done|]. by intros (ip & s & [=] & _). }
  split; [apply Hiff|]. split; [|split; [|split]].
  - intros err Herr. unfold trusts. by rewrite Herr.
  - intros ip Hip. unfold trusts. by rewrite Hip.
  - intros Hnone. unfold trusts. rewrite Hnone.
    by destruct (ResolveTCPAddr remoteTCPAddr).
  - intros config' Hsub. rewrite !Hiff.
    intros (ip & s & Hip & Hin & Hc). exists ip, s. split; [done|]. split; [|done].
    by apply Hsub.
Qed.

End admission.

(** * Further runs on the sample collaborators *)

Section sample_runs_more.
Import Sample.
Local Open Scope N_scope.

Lemma router0_registryWf : registryWf router0.
Proof.
  intros n c Hc. change (gossipChannels router0) with ({["topology" := 0%nat]} : gmap string chanptr) in Hc.
  apply lookup_singleton_Some in Hc as [<- <-]. reflexivity.
Defined.

Lemma handled_name_blocks_NewGossip_run :
  DecodeString (NewDecoder appTruncated) = (inl "app", []) /\
  fst (NewGossip "app" (madeGossiper 1)
         (snd (handleGossip ProtocolGossip appTruncated router0))) =
    (None, Some (errDuplicateChannel "app")).
Proof.
  split; [reflexivity|].
  exact (proj1 (handled_name_blocks_NewGossip ProtocolGossip appTruncated router0
                  "app"%string [] (madeGossiper 1) eq_refl)).
Defined.

(** Two registrations of "app" and one resolve, the second registration
    scheduled after the first and the resolve last. *)
Definition raceThreads : list thread :=
  [registerStart "app" (madeGossiper 1); registerStart "app" (madeGossiper 2);
   resolveStart "app"].
Definition raceSchedule : list nat := [0; 1; 2; 2]%nat.

Lemma raceThreads_steps :
  rtc step (raceThreads, router0)
      (fst (runSchedule raceSchedule raceThreads router0),
       snd (runSchedule raceSchedule raceThreads router0)).
Proof. rewrite <- surjective_pairing. apply runSchedule_steps. Defined.

Lemma interleaving_keeps_registry_run :
  registryWf router0 /\
  gossipChannels (snd (runSchedule raceSchedule raceThreads router0)) !! "topology" =
    Some 0%nat.
Proof.
  split; [exact router0_registryWf|].
  destruct (interleaving_keeps_registry _ _ _ _ router0_registryWf raceThreads_steps)
    as (_ & _ & Hkept & _).
  exact (Hkept "topology"%string 0%nat eq_refl).
Defined.

Lemma registration_race_run :
  allocated router0 /\
  Forall notStarted raceThreads /\
  fst (runSchedule raceSchedule raceThreads router0) =
    [registerDone "app" (Some 1%nat, None);
     registerDone "app" (None, Some (errDuplicateChannel "app"));
     resolveDone "app" 1%nat] /\
  gossipChannels (snd (runSchedule raceSchedule raceThreads router0)) !! "app" = Some 1%nat.
Proof.
  split; [exact router0_allocated|].
  assert (Forall notStarted raceThreads) as Hts by (repeat constructor).
  split; [exact Hts|].
  split; [vm_compute; reflexivity|].
  destruct (registration_race raceThreads _ router0 _ "app"%string
              router0_allocated Hts raceThreads_steps) as [_ Hwon].
  destruct (Hwon 0%nat 1%nat None) as [Hreg _]; [vm_compute; reflexivity|].
  exact Hreg.
Defined.

Lemma topology_failed_update_run :
  Sample.applyUpdate (peersObj router0) [xff] =
    ((∅, ∅, Some (errForeign "malformed update")), {[1; 2]}) /\
  fst (OnGossip [xff] router0) = (None, Some (errForeign "malformed update")) /\
  calls (snd (OnGossip [xff] router0)) = [].
Proof.
  assert (Sample.applyUpdate (peersObj router0) [xff] =
            ((∅, ∅, Some (errForeign "malformed update")), {[1; 2]})) as Happ
    by (vm_compute; reflexivity).
  split; [exact Happ|].
  destruct (topology_failed_update router0 7 [xff] _ _ _ _ Happ)
    as (_ & Hres & _ & Hcalls & _).
  exact (conj Hres Hcalls).
Defined.

Lemma Merge_any_order_run :
  MergeIn (reverse (elements ({[1; 2; 5]} : gset N))) (reverse (elements ({[2; 9]} : gset N)))
          (mkTopology 0%nat {[1; 2; 5]}) (topologyData (mkTopology 1%nat {[2; 9]})) =
  Merge (mkTopology 0%nat {[1; 2; 5]}) (topologyData (mkTopology 1%nat {[2; 9]})).
Proof.
  exact (Merge_any_order _ _ (mkTopology 0%nat {[1; 2; 5]}) (mkTopology 1%nat {[2; 9]})
           (reverse_Permutation _) (reverse_Permutation _)).
Defined.

End sample_runs_more.
